(** * Advanced staking blueprint: period accounting, positions, unstaking

    Shallow embedding of the Scrypto blueprint [src/src/lib.rs]
    (component [Staking]).  Every public method is a function from the
    component state (and the minute-rounded current time [now]) to
    [option]: [None] is a panic ([unwrap] on [None], a failed [assert!],
    an out-of-bounds vector index, a checked arithmetic overflow, or a
    ledger primitive refusing the request), which aborts the transaction
    and leaves the ledger untouched.

    Ledger primitives are modelled as follows:
    - [Decimal] is an integer number of attos (10^-18); [*] and [/]
      truncate toward zero as Scrypto's [Decimal] does; the I192 range
      is not modelled.
    - [Instant] is a number of seconds since the Unix epoch;
      [add_days] and [i64] arithmetic are checked (overflow panics).
    - A vault is its balance; [take] fails on a negative amount or an
      insufficient balance.
    - A non-fungible resource manager carries the data type it was
      created with and its live records; minting data of another type,
      or under an existing local id, is refused by the ledger.
    - A key-value store entry owning a vault cannot be overwritten (the
      old vault would be left orphaned, which the ledger refuses). *)

From Stdlib Require Import ZArith Lia.
From stdpp Require Import base gmap list fin_maps sets.

Local Open Scope Z_scope.

(* ------------------------------------------------------------------ *)
(** ** Ledger arithmetic *)

Module Dec.
(** [Decimal::ONE]: 18 decimal places. *)
Definition ONE : Z := 10 ^ 18.
(** [Decimal::from(n)] / [dec!(n)] for an integer [n]. *)
Definition of_int (n : Z) : Z := n * ONE.
(** [Decimal * Decimal]: product rescaled, truncated toward zero. *)
Definition mul (a b : Z) : Z := Z.quot (a * b) ONE.
(** [Decimal / Decimal]: panics on a zero divisor. *)
Definition div (a b : Z) : option Z :=
  if b =? 0 then None else Some (Z.quot (a * ONE) b).
(** [checked_floor]: round toward negative infinity. *)
Definition checked_floor (a : Z) : Z := Z.div a ONE * ONE.
End Dec.

Definition i64_ok (z : Z) : bool := (- 2 ^ 63 <=? z) && (z <=? 2 ^ 63 - 1).

Definition u64_ok (z : Z) : bool := (0 <=? z) && (z <=? 2 ^ 64 - 1).

(** Checked [i64] result (overflow panics). *)
Definition i64_chk (z : Z) : option Z := if i64_ok z then Some z else None.

Definition SECONDS_IN_A_DAY : Z := 86400.

(** [Instant::add_days(days)] followed by [.unwrap()]. *)
Definition add_days (t days : Z) : option Z :=
  s ← i64_chk (days * SECONDS_IN_A_DAY); i64_chk (t + s).

(** [Clock::current_time_is_at_or_after(t, TimePrecision::Minute)]:
    the minute-rounded current time [now] against [t] rounded down to
    the minute. *)
Definition current_time_is_at_or_after (now t : Z) : bool :=
  (t / 60) * 60 <=? now.

(* ------------------------------------------------------------------ *)
(** ** Data model *)

Module Lock.
Record t := mk { payment : Z; duration : Z }.
End Lock.

Module StakableUnit.
Record t := mk {
  address : Z;
  staked_amount : Z;
  vault : Z;
  reward_amount : Z;
  lock : Lock.t;
  rewards : gmap Z Z
}.
End StakableUnit.

Module Id.
Record t := mk {
  amounts_staked : list Z;
  amounts_locked : list Z;
  next_period : Z;
  locked_until : list (option Z)
}.
End Id.

Module UnstakeReceipt.
Record t := mk { address : Z; amount : Z; redemption_time : Z }.
End UnstakeReceipt.

Module StakeTransferReceipt.
Record t := mk { address : Z; amount : Z }.
End StakeTransferReceipt.

(** Non-fungible data, tagged by its Rust type. *)
Inductive nf_data :=
| NfId (d : Id.t)
| NfUnstakeReceipt (r : UnstakeReceipt.t)
| NfStakeTransferReceipt (r : StakeTransferReceipt.t).

(** The data type a non-fungible resource is created with
    ([ResourceBuilder::new_integer_non_fungible::<T>]). *)
Inductive nf_type := TId | TUnstakeReceipt | TStakeTransferReceipt.

#[global] Instance nf_type_eq_dec : EqDecision nf_type.
Proof. solve_decision. Defined.

Definition type_of (d : nf_data) : nf_type :=
  match d with
  | NfId _ => TId
  | NfUnstakeReceipt _ => TUnstakeReceipt
  | NfStakeTransferReceipt _ => TStakeTransferReceipt
  end.

Module ResourceManager.
Record t := mk { address : Z; data_type : nf_type; data : gmap Z nf_data }.
End ResourceManager.

(** [mint_non_fungible(&NonFungibleLocalId::integer(n), data)]. *)
Definition mint_non_fungible (rm : ResourceManager.t) (n : Z) (d : nf_data)
  : option ResourceManager.t :=
  if decide (type_of d = ResourceManager.data_type rm) then
    match ResourceManager.data rm !! n with
    | Some _ => None
    | None => Some (ResourceManager.mk (ResourceManager.address rm)
                     (ResourceManager.data_type rm) (<[n := d]> (ResourceManager.data rm)))
    end
  else None.

(** [bucket.burn()] of the single non-fungible [n]. *)
Definition burn (rm : ResourceManager.t) (n : Z) : ResourceManager.t :=
  ResourceManager.mk (ResourceManager.address rm) (ResourceManager.data_type rm)
    (delete n (ResourceManager.data rm)).

(** Overwrite the record [n] (the component updates single fields and
    always writes back a whole [Id]). *)
Definition put_data (rm : ResourceManager.t) (n : Z) (d : nf_data) : ResourceManager.t :=
  ResourceManager.mk (ResourceManager.address rm) (ResourceManager.data_type rm)
    (<[n := d]> (ResourceManager.data rm)).

(** [get_non_fungible_data::<Id>(&id)]. *)
Definition get_id (rm : ResourceManager.t) (n : Z) : option Id.t :=
  match ResourceManager.data rm !! n with
  | Some (NfId d) => Some d
  | _ => None
  end.

(** The component state, field for field as [struct Staking]. *)
Record Staking := mkStaking {
  period_interval : Z;
  next_period : Z;
  current_period : Z;
  max_claim_delay : Z;
  max_unstaking_delay : Z;
  stake_transfer_receipt_manager : ResourceManager.t;
  stake_transfer_receipt_counter : Z;
  unstake_receipt_manager : ResourceManager.t;
  unstake_receipt_counter : Z;
  unstake_delay : Z;
  id_manager : ResourceManager.t;
  id_counter : Z;
  reward_vault : Z;
  stakes : gmap Z StakableUnit.t;
  stakables : list Z;
  dao_controlled : bool
}.

(** Field updates of the component state. *)
Definition set_periods (cp np : Z) (s : gmap Z StakableUnit.t) (st : Staking) : Staking :=
  mkStaking (period_interval st) np cp (max_claim_delay st) (max_unstaking_delay st)
    (stake_transfer_receipt_manager st) (stake_transfer_receipt_counter st)
    (unstake_receipt_manager st) (unstake_receipt_counter st) (unstake_delay st)
    (id_manager st) (id_counter st) (reward_vault st) s (stakables st) (dao_controlled st).

Definition set_next_period (np : Z) (st : Staking) : Staking :=
  set_periods (current_period st) np (stakes st) st.

Definition set_stakes (s : gmap Z StakableUnit.t) (st : Staking) : Staking :=
  set_periods (current_period st) (next_period st) s st.

Definition set_config (pi mcd ud : Z) (st : Staking) : Staking :=
  mkStaking pi (next_period st) (current_period st) mcd (max_unstaking_delay st)
    (stake_transfer_receipt_manager st) (stake_transfer_receipt_counter st)
    (unstake_receipt_manager st) (unstake_receipt_counter st) ud
    (id_manager st) (id_counter st) (reward_vault st) (stakes st) (stakables st)
    (dao_controlled st).

Definition set_ids (ic : Z) (im : ResourceManager.t) (st : Staking) : Staking :=
  mkStaking (period_interval st) (next_period st) (current_period st)
    (max_claim_delay st) (max_unstaking_delay st)
    (stake_transfer_receipt_manager st) (stake_transfer_receipt_counter st)
    (unstake_receipt_manager st) (unstake_receipt_counter st) (unstake_delay st)
    im ic (reward_vault st) (stakes st) (stakables st) (dao_controlled st).

Definition set_id_manager (im : ResourceManager.t) (st : Staking) : Staking :=
  set_ids (id_counter st) im st.

Definition set_unstake_receipts (c : Z) (rm : ResourceManager.t) (st : Staking) : Staking :=
  mkStaking (period_interval st) (next_period st) (current_period st)
    (max_claim_delay st) (max_unstaking_delay st)
    (stake_transfer_receipt_manager st) (stake_transfer_receipt_counter st)
    rm c (unstake_delay st)
    (id_manager st) (id_counter st) (reward_vault st) (stakes st) (stakables st)
    (dao_controlled st).

Definition set_stake_transfer_receipts (c : Z) (rm : ResourceManager.t) (st : Staking)
  : Staking :=
  mkStaking (period_interval st) (next_period st) (current_period st)
    (max_claim_delay st) (max_unstaking_delay st) rm c
    (unstake_receipt_manager st) (unstake_receipt_counter st) (unstake_delay st)
    (id_manager st) (id_counter st) (reward_vault st) (stakes st) (stakables st)
    (dao_controlled st).

Definition set_reward_vault (v : Z) (st : Staking) : Staking :=
  mkStaking (period_interval st) (next_period st) (current_period st)
    (max_claim_delay st) (max_unstaking_delay st)
    (stake_transfer_receipt_manager st) (stake_transfer_receipt_counter st)
    (unstake_receipt_manager st) (unstake_receipt_counter st) (unstake_delay st)
    (id_manager st) (id_counter st) v (stakes st) (stakables st) (dao_controlled st).

Definition set_registry (s : gmap Z StakableUnit.t) (sl : list Z) (st : Staking) : Staking :=
  mkStaking (period_interval st) (next_period st) (current_period st)
    (max_claim_delay st) (max_unstaking_delay st)
    (stake_transfer_receipt_manager st) (stake_transfer_receipt_counter st)
    (unstake_receipt_manager st) (unstake_receipt_counter st) (unstake_delay st)
    (id_manager st) (id_counter st) (reward_vault st) s sl (dao_controlled st).

(** [update_non_fungible_data(&id, field, value)] on a staking ID. *)
Definition put_id (n : Z) (d : Id.t) (st : Staking) : Staking :=
  set_id_manager (put_data (id_manager st) n (NfId d)) st.

Module IdUpd.
Definition with_staked (v : list Z) (d : Id.t) : Id.t :=
  Id.mk v (Id.amounts_locked d) (Id.next_period d) (Id.locked_until d).
Definition with_next_period (p : Z) (d : Id.t) : Id.t :=
  Id.mk (Id.amounts_staked d) (Id.amounts_locked d) p (Id.locked_until d).
Definition with_locked_until (v : list (option Z)) (d : Id.t) : Id.t :=
  Id.mk (Id.amounts_staked d) (Id.amounts_locked d) (Id.next_period d) v.
End IdUpd.

Module SuUpd.
Import StakableUnit.
Definition with_staked_amount (x : Z) (su : t) : t :=
  mk (address su) x (vault su) (reward_amount su) (lock su) (rewards su).
Definition with_vault (x : Z) (su : t) : t :=
  mk (address su) (staked_amount su) x (reward_amount su) (lock su) (rewards su).
Definition with_rewards (r : gmap Z Z) (su : t) : t :=
  mk (address su) (staked_amount su) (vault su) (reward_amount su) (lock su) r.
Definition with_terms (reward : Z) (l : Lock.t) (su : t) : t :=
  mk (address su) (staked_amount su) (vault su) reward l (rewards su).
End SuUpd.

(** [assert!(b)]. *)
Definition assert_true (b : bool) : option unit := if b then Some tt else None.

(** [vault.take(amount)]: refused on a negative amount or a short vault. *)
Definition vault_take (balance amount : Z) : option Z :=
  if (0 <=? amount) && (amount <=? balance) then Some (balance - amount) else None.

(** [self.stakables.iter().position(|&r| r == address)]. *)
Fixpoint position (a : Z) (l : list Z) : option nat :=
  match l with
  | [] => None
  | x :: l' => if x =? a then Some 0%nat else S <$> position a l'
  end.

(* ------------------------------------------------------------------ *)
(** ** [update_period] *)

(** [extra_periods]: the floored number of whole intervals elapsed
    since [next_period], computed in [Decimal] and converted to [i64]. *)
Definition extra_periods (st : Staking) (now : Z) : option Z :=
  diff ← i64_chk (now - next_period st);
  q ← Dec.div (Dec.of_int diff)
        (Dec.mul (Dec.of_int (period_interval st)) (Dec.of_int SECONDS_IN_A_DAY));
  i64_chk (Z.quot (Dec.checked_floor q) Dec.ONE).

(** The rate frozen for a unit: [reward_amount / staked_amount] when
    something is staked, [0] otherwise. *)
Definition frozen_rate (su : StakableUnit.t) : option Z :=
  if 0 <? StakableUnit.staked_amount su
  then Dec.div (StakableUnit.reward_amount su) (StakableUnit.staked_amount su)
  else Some 0.

(** A unit after [stakable_unit.rewards.insert(cur, r)]. *)
Definition freeze_unit (cur r : Z) (su : StakableUnit.t) : StakableUnit.t :=
  SuUpd.with_rewards (<[cur := r]> (StakableUnit.rewards su)) su.

(** The loop over [self.stakables] inserting the period's rate. *)
Fixpoint freeze_rates (cur : Z) (l : list Z) (s : gmap Z StakableUnit.t)
  : option (gmap Z StakableUnit.t) :=
  match l with
  | [] => Some s
  | a :: l' =>
      su ← s !! a;
      r ← frozen_rate su;
      freeze_rates cur l' (<[a := freeze_unit cur r su]> s)
  end.

Definition update_period (st : Staking) (now : Z) : option Staking :=
  extra ← extra_periods st now;
  if current_time_is_at_or_after now (next_period st) then
    s ← freeze_rates (current_period st) (stakables st) (stakes st);
    cp ← i64_chk (current_period st + 1);
    k ← i64_chk (1 + extra);
    days ← i64_chk (k * period_interval st);
    np ← add_days (next_period st) days;
    Some (set_periods cp np s st)
  else Some st.

(* ------------------------------------------------------------------ *)
(** ** [check_indexes]: period roll-forward and vector reconciliation *)

Definition check_indexes (st : Staking) (now : Z) (id : Z) : option Staking :=
  st1 ← (if current_time_is_at_or_after now (next_period st)
         then update_period st now else Some st);
  d ← get_id (id_manager st1) id;
  let staked := Id.amounts_staked d in
  let locked := Id.locked_until d in
  let n := length (stakables st1) in
  if decide (length staked = n) then Some st1
  else if decide (length staked <= n)%nat then
    let to_add := (n - length staked)%nat in
    Some (put_id id (IdUpd.with_locked_until (locked ++ replicate to_add None)
                      (IdUpd.with_staked (staked ++ replicate to_add 0) d)) st1)
  else None.

(* ------------------------------------------------------------------ *)
(** ** Holder-facing methods *)

(** [create_id]: a record sized to the current registry.  The [u64]
    counter and the [i64] period are incremented with overflow checks. *)
Definition create_id (st : Staking) : option (Staking * Z) :=
  let c := id_counter st + 1 in
  _ ← assert_true (u64_ok c);
  let n := length (stakables st) in
  _ ← assert_true (i64_ok (current_period st + 1));
  let d := Id.mk (replicate n 0) (replicate n 0) (current_period st + 1) (replicate n None) in
  im ← mint_non_fungible (id_manager st) c (NfId d);
  Some (set_ids c im st, c).

(** Data of a stake transfer receipt, read as [StakeTransferReceipt]. *)
Definition get_transfer (rm : ResourceManager.t) (n : Z) : option StakeTransferReceipt.t :=
  match ResourceManager.data rm !! n with
  | Some (NfStakeTransferReceipt r) => Some r
  | _ => None
  end.

(** Data of an unstake receipt, read as [UnstakeReceipt]. *)
Definition get_unstake (rm : ResourceManager.t) (n : Z) : option UnstakeReceipt.t :=
  match ResourceManager.data rm !! n with
  | Some (NfUnstakeReceipt r) => Some r
  | _ => None
  end.

(** A bucket is its resource address and amount; a non-fungible bucket
    holding one record is its resource address and local id. *)
Definition stake (st : Staking) (now : Z) (address : Z) (stake_bucket : option (Z * Z))
    (id : Z) (stake_transfer_receipt : option (Z * Z)) : option Staking :=
  st1 ← check_indexes st now id;
  d ← get_id (id_manager st1) id;
  index ← position address (stakables st1);
  let staked_vector := Id.amounts_staked d in
  _ ← assert_true (current_period st1 <=? Id.next_period d);
  _ ← assert_true (bool_decide (address ∈ stakables st1));
  '(a1, st2) ← match stake_bucket with
    | Some (res, amt) =>
        _ ← assert_true (res =? address);
        su ← stakes st1 !! address;
        Some (amt, set_stakes (<[address := SuUpd.with_vault (StakableUnit.vault su + amt) su]>
                                 (stakes st1)) st1)
    | None => Some (0, st1)
    end;
  '(a2, st3) ← match stake_transfer_receipt with
    | Some (res, n) =>
        _ ← assert_true (res =? ResourceManager.address (stake_transfer_receipt_manager st2));
        r ← get_transfer (stake_transfer_receipt_manager st2) n;
        _ ← assert_true (StakeTransferReceipt.address r =? address);
        Some (StakeTransferReceipt.amount r,
              set_stake_transfer_receipts (stake_transfer_receipt_counter st2)
                (burn (stake_transfer_receipt_manager st2) n) st2)
    | None => Some (0, st2)
    end;
  let stake_amount := 0 + a1 + a2 in
  old ← staked_vector !! index;
  let st4 := put_id id (IdUpd.with_staked (<[index := old + stake_amount]> staked_vector) d) st3 in
  su ← stakes st4 !! address;
  let st5 := set_stakes (<[address := SuUpd.with_staked_amount
                                        (StakableUnit.staked_amount su + stake_amount) su]>
                           (stakes st4)) st4 in
  d5 ← get_id (id_manager st5) id;
  _ ← assert_true (i64_ok (current_period st5 + 1));
  Some (put_id id (IdUpd.with_next_period (current_period st5 + 1) d5) st5).

(** [start_unstake]: returns the new state and the local id of the
    minted receipt (a stake transfer receipt when [stake_transfer]). *)
Definition start_unstake (st : Staking) (now : Z) (id : Z) (address : Z)
    (unstake_amount : Z) (unstake_all stake_transfer : bool) : option (Staking * Z) :=
  st1 ← check_indexes st now id;
  d ← get_id (id_manager st1) id;
  index ← position address (stakables st1);
  let staked_vector := Id.amounts_staked d in
  let locked_vector := Id.locked_until d in
  s_i ← staked_vector !! index;
  _ ← assert_true (0 <? s_i);
  l_i ← locked_vector !! index;
  _ ← match l_i with
      | Some t => assert_true (current_time_is_at_or_after now t)
      | None => Some tt
      end;
  let amount0 := if unstake_all then s_i else unstake_amount in
  su ← stakes st1 !! address;
  let '(amount, staked_vector', debit) :=
    if s_i <=? amount0 then (s_i, <[index := 0]> staked_vector, s_i)
    else (amount0, <[index := s_i - amount0]> staked_vector, amount0) in
  let st2 := set_stakes (<[address := SuUpd.with_staked_amount
                                        (StakableUnit.staked_amount su - debit) su]>
                           (stakes st1)) st1 in
  let st3 := put_id id (IdUpd.with_staked staked_vector' d) st2 in
  if stake_transfer then
    let c := stake_transfer_receipt_counter st3 + 1 in
    _ ← assert_true (u64_ok c);
    rm ← mint_non_fungible (stake_transfer_receipt_manager st3) c
           (NfStakeTransferReceipt (StakeTransferReceipt.mk address amount));
    Some (set_stake_transfer_receipts c rm st3, c)
  else
    redemption_time ← add_days now (unstake_delay st3);
    let c := unstake_receipt_counter st3 + 1 in
    _ ← assert_true (u64_ok c);
    rm ← mint_non_fungible (unstake_receipt_manager st3) c
           (NfUnstakeReceipt (UnstakeReceipt.mk address amount redemption_time));
    Some (set_unstake_receipts c rm st3, c).

(** [finish_unstake]: the receipt bucket is (resource address, local id). *)
Definition finish_unstake (st : Staking) (now : Z) (receipt : Z * Z) : option (Staking * Z) :=
  let '(res, n) := receipt in
  _ ← assert_true (res =? ResourceManager.address (unstake_receipt_manager st));
  r ← get_unstake (unstake_receipt_manager st) n;
  _ ← assert_true (current_time_is_at_or_after now (UnstakeReceipt.redemption_time r));
  let st1 := set_unstake_receipts (unstake_receipt_counter st)
               (burn (unstake_receipt_manager st) n) st in
  su ← stakes st1 !! UnstakeReceipt.address r;
  v ← vault_take (StakableUnit.vault su) (UnstakeReceipt.amount r);
  Some (set_stakes (<[UnstakeReceipt.address r := SuUpd.with_vault v su]> (stakes st1)) st1,
        UnstakeReceipt.amount r).

(** [for week in 1..(claimed_weeks + 1)]. *)
Definition week_range (claimed_weeks : Z) : list Z :=
  map (fun k => Z.of_nat k + 1) (seq 0 (Z.to_nat claimed_weeks)).

Fixpoint fold_leftM {A B} (f : A -> B -> option A) (l : list B) (a : A) : option A :=
  match l with
  | [] => Some a
  | b :: l' => a' ← f a b; fold_leftM f l' a'
  end.

(** Body of the inner loop of [update_id]. *)
Definition add_week_reward (rewards : gmap Z Z) (cur : Z) (staked_vector : list Z)
    (index : nat) (acc : Z) (week : Z) : option Z :=
  match rewards !! (cur - week) with
  | Some r => s ← staked_vector !! index; Some (acc + Dec.mul r s)
  | None => Some acc
  end.

(** The outer loop of [update_id] over [stakables.iter().enumerate()]. *)
Fixpoint claim_loop (s : gmap Z StakableUnit.t) (sl : list Z) (index : nat)
    (staked_vector : list Z) (cur claimed_weeks acc : Z) : option Z :=
  match sl with
  | [] => Some acc
  | a :: sl' =>
      su ← s !! a;
      acc' ← fold_leftM (add_week_reward (StakableUnit.rewards su) cur staked_vector index)
               (week_range claimed_weeks) acc;
      claim_loop s sl' (S index) staked_vector cur claimed_weeks acc'
  end.

Definition claimed_weeks (cur next max_delay : Z) : Z :=
  let w := cur - next + 1 in if max_delay <? w then max_delay else w.

(** [update_id]: claim rewards; returns the new state and the payout. *)
Definition update_id (st : Staking) (now : Z) (id : Z) : option (Staking * Z) :=
  st1 ← check_indexes st now id;
  d ← get_id (id_manager st1) id;
  let staked_vector := Id.amounts_staked d in
  let w := claimed_weeks (current_period st1) (Id.next_period d) (max_claim_delay st1) in
  _ ← assert_true (0 <? w);
  _ ← assert_true (i64_ok (current_period st1 + 1));
  let st2 := put_id id (IdUpd.with_next_period (current_period st1 + 1) d) st1 in
  staking_reward ← claim_loop (stakes st2) (stakables st2) 0 staked_vector
                     (current_period st2) w 0;
  v ← vault_take (reward_vault st2) staking_reward;
  Some (set_reward_vault v st2, staking_reward).

(** [lock_stake]: returns the new state and the lock bonus paid. *)
Definition lock_stake (st : Staking) (now : Z) (address : Z) (id : Z) : option (Staking * Z) :=
  st1 ← check_indexes st now id;
  index ← position address (stakables st1);
  su ← stakes st1 !! address;
  d ← get_id (id_manager st1) id;
  staked_amount ← Id.amounts_staked d !! index;
  let locked_vector := Id.locked_until d in
  l_i ← locked_vector !! index;
  _ ← match l_i with
      | Some t => assert_true (current_time_is_at_or_after now t)
      | None => Some tt
      end;
  lock_until ← add_days now (Lock.duration (StakableUnit.lock su));
  let st2 := put_id id (IdUpd.with_locked_until (<[index := Some lock_until]> locked_vector) d) st1 in
  let pay := Dec.mul (Lock.payment (StakableUnit.lock su)) staked_amount in
  v ← vault_take (reward_vault st2) pay;
  Some (set_reward_vault v st2, pay).

(* ------------------------------------------------------------------ *)
(** ** Admin methods *)

Definition set_period_interval (st : Staking) (new_interval : Z) : Staking :=
  set_config new_interval (max_claim_delay st) (unstake_delay st) st.

Definition fill_rewards (st : Staking) (amount : Z) : Staking :=
  set_reward_vault (reward_vault st + amount) st.

Definition remove_rewards (st : Staking) (amount : Z) : option (Staking * Z) :=
  v ← vault_take (reward_vault st) amount;
  Some (set_reward_vault v st, amount).

Definition set_max_claim_delay (st : Staking) (new_delay : Z) : Staking :=
  set_config (period_interval st) new_delay (unstake_delay st) st.

Definition set_unstake_delay (st : Staking) (new_delay : Z) : option Staking :=
  _ ← assert_true (new_delay <=? max_unstaking_delay st);
  Some (set_config (period_interval st) (max_claim_delay st) new_delay st).

Definition set_rewards (st : Staking) (address reward : Z) : option Staking :=
  su ← stakes st !! address;
  Some (set_stakes (<[address := SuUpd.with_terms reward (StakableUnit.lock su) su]>
                      (stakes st)) st).

(** [add_stakable]: the new unit owns a fresh vault and store; an entry
    already holding a unit (and its vault) cannot be overwritten. *)
Definition add_stakable (st : Staking) (address reward_amount : Z) (lock : Lock.t)
  : option Staking :=
  match stakes st !! address with
  | Some _ => None
  | None =>
      Some (set_registry
              (<[address := StakableUnit.mk address 0 0 reward_amount lock ∅]> (stakes st))
              (stakables st ++ [address]) st)
  end.

Definition edit_stakable (st : Staking) (address reward_amount : Z) (lock : Lock.t)
  : option Staking :=
  su ← stakes st !! address;
  Some (set_stakes (<[address := SuUpd.with_terms reward_amount lock su]> (stakes st)) st).

Definition set_next_period_to_now (st : Staking) (now : Z) : Staking :=
  set_next_period now st.

(** [set_lock]: DAO-gated; no [check_indexes]. *)
Definition set_lock (st : Staking) (address lock_until id : Z) : option Staking :=
  _ ← assert_true (dao_controlled st);
  d ← get_id (id_manager st) id;
  index ← position address (stakables st);
  let locked_vector := Id.locked_until d in
  _ ← assert_true (bool_decide (index < length locked_vector)%nat);
  Some (put_id id (IdUpd.with_locked_until (<[index := Some lock_until]> locked_vector) d) st).

(** [new]: the ledger allocates the three resource addresses. *)
Definition new (now period_interval rewards : Z) (dao_controlled : bool)
    (max_unstaking_delay id_addr stake_transfer_addr unstake_addr : Z) : option Staking :=
  np ← add_days now period_interval;
  Some (mkStaking period_interval np 0 5 max_unstaking_delay
          (ResourceManager.mk stake_transfer_addr TUnstakeReceipt ∅) 0
          (ResourceManager.mk unstake_addr TUnstakeReceipt ∅) 0 7
          (ResourceManager.mk id_addr TId ∅) 0 rewards ∅ [] dao_controlled).

(* ------------------------------------------------------------------ *)
(** ** The component as a transition system *)

(** One method call (the arguments a caller supplies). *)
Inductive call :=
| CreateId
| Stake (address : Z) (stake_bucket : option (Z * Z)) (id : Z)
        (stake_transfer_receipt : option (Z * Z))
| StartUnstake (id address unstake_amount : Z) (unstake_all stake_transfer : bool)
| FinishUnstake (receipt : Z * Z)
| UpdateId (id : Z)
| UpdatePeriod
| LockStake (address id : Z)
| SetLock (address lock_until id : Z)
| SetPeriodInterval (new_interval : Z)
| SetRewards (address reward : Z)
| SetMaxClaimDelay (new_delay : Z)
| FillRewards (amount : Z)
| RemoveRewards (amount : Z)
| AddStakable (address reward_amount : Z) (lock : Lock.t)
| EditStakable (address reward_amount : Z) (lock : Lock.t)
| SetNextPeriodToNow
| SetUnstakeDelay (new_delay : Z).

(** The state after a call at time [now] ([None]: the call aborts). *)
Definition exec (st : Staking) (now : Z) (c : call) : option Staking :=
  match c with
  | CreateId => fst <$> create_id st
  | Stake a b id r => stake st now a b id r
  | StartUnstake id a x all tr => fst <$> start_unstake st now id a x all tr
  | FinishUnstake r => fst <$> finish_unstake st now r
  | UpdateId id => fst <$> update_id st now id
  | UpdatePeriod => update_period st now
  | LockStake a id => fst <$> lock_stake st now a id
  | SetLock a t id => set_lock st a t id
  | SetPeriodInterval v => Some (set_period_interval st v)
  | SetRewards a r => set_rewards st a r
  | SetMaxClaimDelay v => Some (set_max_claim_delay st v)
  | FillRewards x => Some (fill_rewards st x)
  | RemoveRewards x => fst <$> remove_rewards st x
  | AddStakable a r l => add_stakable st a r l
  | EditStakable a r l => edit_stakable st a r l
  | SetNextPeriodToNow => Some (set_next_period_to_now st now)
  | SetUnstakeDelay v => set_unstake_delay st v
  end.

(** States reachable from an instantiation by a sequence of calls. *)
Inductive reachable : Staking -> Prop :=
| reachable_new now pi rw dao mud a1 a2 a3 st :
    new now pi rw dao mud a1 a2 a3 = Some st -> reachable st
| reachable_step st now c st' :
    reachable st -> exec st now c = Some st' -> reachable st'.

(** Run a list of timed calls. *)
Fixpoint run (st : Staking) (calls : list (Z * call)) : option Staking :=
  match calls with
  | [] => Some st
  | (now, c) :: calls' => st' ← exec st now c; run st' calls'
  end.

(* ------------------------------------------------------------------ *)
(** ** The claimed reward, as the specification describes it *)

Definition sumZ {A} (f : A -> Z) (l : list A) : Z := foldr (fun x acc => f x + acc) 0 l.

(** The periods a claim of [w] weeks reads: [cur - 1], ..., [cur - w]. *)
Definition claimable_periods (cur w : Z) : list Z := map (fun week => cur - week) (week_range w).

(** The reward of one period for one asset: frozen rate times amount,
    nothing when no rate was frozen. *)
Definition period_reward (rewards : gmap Z Z) (amount p : Z) : Z :=
  match rewards !! p with Some r => Dec.mul r amount | None => 0 end.

(** Sum over the registered assets (with their index) and the claimable
    periods of rate times the position's staked amount at that index. *)
Fixpoint claim_total (s : gmap Z StakableUnit.t) (sl : list Z) (index : nat)
    (staked_vector : list Z) (cur w : Z) : Z :=
  match sl with
  | [] => 0
  | a :: sl' =>
      match s !! a with
      | Some su => sumZ (period_reward (StakableUnit.rewards su)
                           (default 0 (staked_vector !! index)))
                        (claimable_periods cur w)
      | None => 0
      end + claim_total s sl' (S index) staked_vector cur w
  end.

(* ------------------------------------------------------------------ *)
(** ** Proof vocabulary *)

(** A staking ID after [check_indexes] against a registry of [n] assets. *)
Definition reconciled (d : Id.t) (n : nat) : Id.t :=
  let k := (n - length (Id.amounts_staked d))%nat in
  IdUpd.with_locked_until (Id.locked_until d ++ replicate k None)
    (IdUpd.with_staked (Id.amounts_staked d ++ replicate k 0) d).

(** The staked amount of a position at index [i] (0 past its end). *)
Definition staked_at (i : nat) (d : Id.t) : Z := default 0 (Id.amounts_staked d !! i).

Definition contrib (i : nat) (nd : nf_data) : Z :=
  match nd with NfId d => staked_at i d | _ => 0 end.

(** Sum over all staking IDs of their staked amount at index [i]. *)
Definition total_staked (i : nat) (rm : ResourceManager.t) : Z :=
  map_fold (fun _ nd acc => contrib i nd + acc) 0 (ResourceManager.data rm).

(** The registry and the staking IDs agree: the registry lists each
    unit once, no ID is wider than the registry, and for every
    registered asset the IDs' staked amounts at its index add up to the
    unit's [staked_amount]. *)
Record inv (st : Staking) : Prop := {
  inv_nodup : NoDup (stakables st);
  inv_keys : forall a, a ∈ stakables st <-> is_Some (stakes st !! a);
  inv_len : forall n d, ResourceManager.data (id_manager st) !! n = Some (NfId d) ->
            (length (Id.amounts_staked d) <= length (stakables st))%nat;
  inv_cons : forall i a su, stakables st !! i = Some a -> stakes st !! a = Some su ->
             total_staked i (id_manager st) = StakableUnit.staked_amount su
}.

(** Calls that cannot move [next_period] backward: all but the admin
    [set_next_period_to_now], and [set_period_interval] only with a
    positive interval. *)
Definition keeps_boundary (c : call) : Prop :=
  match c with
  | SetNextPeriodToNow => False
  | SetPeriodInterval v => 0 < v
  | _ => True
  end.

(** One call changes the unstake receipt resource in one of two ways:
    the counter stays and entries are only removed (burnt), or the
    counter moves up by one and the new number is minted. *)
Definition unstake_step (st st' : Staking) : Prop :=
  ResourceManager.address (unstake_receipt_manager st') =
    ResourceManager.address (unstake_receipt_manager st) /\
  ((unstake_receipt_counter st' = unstake_receipt_counter st /\
    ResourceManager.data (unstake_receipt_manager st') ⊆
    ResourceManager.data (unstake_receipt_manager st)) \/
   (unstake_receipt_counter st' = unstake_receipt_counter st + 1 /\
    exists x, ResourceManager.data (unstake_receipt_manager st') =
      <[unstake_receipt_counter st' := x]> (ResourceManager.data (unstake_receipt_manager st)))).

(** Every unstake receipt number in use is at most the counter. *)
Definition receipts_below (st : Staking) : Prop :=
  forall n, n ∈ dom (ResourceManager.data (unstake_receipt_manager st)) ->
  n <= unstake_receipt_counter st.

(** Receipt [n] was issued and has been burnt. *)
Definition receipt_spent (n : Z) (st : Staking) : Prop :=
  ResourceManager.data (unstake_receipt_manager st) !! n = None /\
  n <= unstake_receipt_counter st.

(** One call changes the ID resource in one of two ways: the counter and
    the set of IDs stay, or the call is [create_id], the counter moves up
    by one and the new number joins the set. *)
Definition id_step (c : call) (st st' : Staking) : Prop :=
  ResourceManager.data_type (id_manager st') = ResourceManager.data_type (id_manager st) /\
  ((id_counter st' = id_counter st /\
    dom (ResourceManager.data (id_manager st')) = dom (ResourceManager.data (id_manager st))) \/
   (c = CreateId /\ id_counter st' = id_counter st + 1 /\
    dom (ResourceManager.data (id_manager st')) =
    {[id_counter st']} ∪ dom (ResourceManager.data (id_manager st)))).

(** The ID resource holds ID data and no number above the counter. *)
Definition ids_below (st : Staking) : Prop :=
  ResourceManager.data_type (id_manager st) = TId /\
  forall n, n ∈ dom (ResourceManager.data (id_manager st)) -> n <= id_counter st.

(** No stake transfer receipt exists. *)
Definition transfer_empty (st : Staking) : Prop :=
  ResourceManager.data (stake_transfer_receipt_manager st) = ∅.

(** Every ID has as many staked amounts as lock times. *)
Definition ids_aligned (m : gmap Z nf_data) : Prop :=
  forall n d, m !! n = Some (NfId d) ->
  length (Id.amounts_staked d) = length (Id.locked_until d).

(** Every frozen rate belongs to a period before [cp]. *)
Definition rates_ok (cp : Z) (s : gmap Z StakableUnit.t) : Prop :=
  forall a su, s !! a = Some su -> forall p, p ∈ dom (StakableUnit.rewards su) -> p < cp.

(** Every unit of [s] is still in [s'], with all its frozen rates. *)
Definition rates_kept (s s' : gmap Z StakableUnit.t) : Prop :=
  forall a su, s !! a = Some su ->
  exists su', s' !! a = Some su' /\ StakableUnit.rewards su ⊆ StakableUnit.rewards su'.

(** Receipt [n] still holds [r] or has been burnt, and is not above the
    counter. *)
Definition receipt_kept (n : Z) (r : UnstakeReceipt.t) (st : Staking) : Prop :=
  (ResourceManager.data (unstake_receipt_manager st) !! n = Some (NfUnstakeReceipt r) \/
   ResourceManager.data (unstake_receipt_manager st) !! n = None) /\
  n <= unstake_receipt_counter st.

(** Every ID of [m] is still an ID in [m']. *)
Definition ids_live (m m' : gmap Z nf_data) : Prop :=
  forall n d, m !! n = Some (NfId d) -> exists d', m' !! n = Some (NfId d').

(* ------------------------------------------------------------------ *)
(** ** Concrete runs *)

(** [new] at time 0 with a 7-day interval, 1,000,000 reward tokens and
    resource addresses 100 (IDs), 101 (transfer receipts), 102 (unstake
    receipts). *)
Definition demo_new : Staking :=
  mkStaking 7 (7 * SECONDS_IN_A_DAY) 0 5 30
    (ResourceManager.mk 101 TUnstakeReceipt ∅) 0
    (ResourceManager.mk 102 TUnstakeReceipt ∅) 0 7
    (ResourceManager.mk 100 TId ∅) 0 (Dec.of_int 1000000) ∅ [] true.

(** Register asset 1 (700 reward per period), create ID 1, stake 350 of
    asset 1 during period 0. *)
Definition demo_calls : list (Z * call) :=
  [(0, AddStakable 1 (Dec.of_int 700) (Lock.mk 0 7));
   (0, CreateId);
   (60, Stake 1 (Some (1, Dec.of_int 350)) 1 None)].

Definition demo_staked : Staking := default demo_new (run demo_new demo_calls).

(** ID 1 is created before asset 1 is registered. *)
Definition demo_late_asset : Staking :=
  default demo_new (run demo_new [(0, CreateId); (0, AddStakable 1 (Dec.of_int 700) (Lock.mk 0 7))]).

(** Stake 10, request an unstake of -5, then an unstake of everything. *)
Definition demo_negative_calls : list (Z * call) :=
  [(0, AddStakable 1 (Dec.of_int 700) (Lock.mk 0 7));
   (0, CreateId);
   (60, Stake 1 (Some (1, Dec.of_int 10)) 1 None);
   (120, StartUnstake 1 1 (Dec.of_int (-5)) false false);
   (180, StartUnstake 1 1 0 true false)].

Definition demo_negative : Staking := default demo_new (run demo_new demo_negative_calls).

(** Asset 1 registered and ID 1 created, nothing staked yet. *)
Definition demo_registered : Staking := default demo_new (run demo_new (take 2 demo_calls)).

(** [demo_staked] after a period roll at one week. *)
Definition demo_claim_pre : Staking :=
  default demo_staked (run demo_staked [(7 * SECONDS_IN_A_DAY, UpdatePeriod)]).

(** [demo_staked], then an unstake request of 100 at t=120 (receipt 1). *)
Definition demo_unstake_calls : list (Z * call) :=
  demo_calls ++ [(120, StartUnstake 1 1 (Dec.of_int 100) false false)].

Definition demo_unstaked : Staking := default demo_new (run demo_new demo_unstake_calls).

(** [demo_staked] after the roll into period 1 (rates of period 0 frozen). *)
Definition demo_rolled : Staking :=
  default demo_staked (update_period demo_staked (3 * 7 * SECONDS_IN_A_DAY)).

(** A new reward amount for asset 1, then a later period roll. *)
Definition demo_rate_calls : list (Z * call) :=
  [(3 * 7 * SECONDS_IN_A_DAY + 60, SetRewards 1 (Dec.of_int 1400));
   (6 * 7 * SECONDS_IN_A_DAY, UpdatePeriod)].

(* ================================================================== *)
(** * Properties *)

(** ** Rate freezing *)

Lemma frozen_rate_value (su : StakableUnit.t) :
  frozen_rate su =
  Some (if decide (0 < StakableUnit.staked_amount su)
        then Z.quot (StakableUnit.reward_amount su * Dec.ONE) (StakableUnit.staked_amount su)
        else 0).
Proof.
  unfold frozen_rate, Dec.div.
  destruct (Z.ltb_spec 0 (StakableUnit.staked_amount su)); case_decide; try lia.
  - rewrite (proj2 (Z.eqb_neq _ _)); [done | lia].
  - done.
Qed.

Lemma frozen_rate_freeze_unit (cur r : Z) (su : StakableUnit.t) :
  frozen_rate (freeze_unit cur r su) = frozen_rate su.
Proof. by destruct su. Qed.

Lemma freeze_unit_idem (cur r : Z) (su : StakableUnit.t) :
  freeze_unit cur r (freeze_unit cur r su) = freeze_unit cur r su.
Proof. destruct su. unfold freeze_unit, SuUpd.with_rewards. simpl. by rewrite insert_insert_eq. Qed.

Lemma freeze_rates_spec (cur : Z) (l : list Z) (s s' : gmap Z StakableUnit.t) :
  freeze_rates cur l s = Some s' ->
  (forall a, a ∈ l -> is_Some (s !! a)) /\
  (forall a, s' !! a =
     if decide (a ∈ l)
     then (fun su => freeze_unit cur (default 0 (frozen_rate su)) su) <$> s !! a
     else s !! a).
Proof.
  revert s. induction l as [|a0 l IH]; intros s H; simpl in H.
  - simplify_eq. split; [set_solver|]. intros a. case_decide; [set_solver|done].
  - destruct (s !! a0) as [su|] eqn:Hsu; [|done]. simpl in H.
    destruct (frozen_rate su) as [r|] eqn:Hr; [|done]. simpl in H.
    destruct (IH _ H) as [Hdom Hs']. split.
    + intros a Ha. apply elem_of_cons in Ha as [->|Ha]; [by eexists|].
      destruct (Hdom a Ha) as [x Hx].
      destruct (decide (a = a0)) as [->|Hne]; [by eexists|].
      rewrite lookup_insert_ne in Hx; [by eexists|done].
    + intros a. rewrite Hs'.
      destruct (decide (a = a0)) as [->|Hne].
      * rewrite lookup_insert_eq, Hsu. simpl.
        rewrite frozen_rate_freeze_unit, Hr. simpl.
        repeat case_decide; try set_solver; by rewrite ?freeze_unit_idem.
      * rewrite lookup_insert_ne by done.
        repeat case_decide; set_solver.
Qed.

(** ** The number of extra periods *)

Lemma ONE_pos : 0 < Dec.ONE.
Proof. unfold Dec.ONE. lia. Qed.

Lemma extra_periods_unfold (st : Staking) (now e : Z) :
  0 < period_interval st ->
  extra_periods st now = Some e ->
  exists q, q = Z.quot ((now - next_period st) * Dec.ONE * Dec.ONE)
                       (period_interval st * Dec.ONE * SECONDS_IN_A_DAY) /\
            e = Z.div q Dec.ONE.
Proof.
  intros HI H. pose proof ONE_pos as HO.
  unfold extra_periods, Dec.div, Dec.mul, Dec.of_int, Dec.checked_floor in H.
  set (O := Dec.ONE) in *.
  replace (period_interval st * O * (SECONDS_IN_A_DAY * O))
    with (period_interval st * O * SECONDS_IN_A_DAY * O) in H by ring.
  rewrite Z.quot_mul in H by lia.
  rewrite (proj2 (Z.eqb_neq _ _)) in H
    by (unfold SECONDS_IN_A_DAY; nia).
  unfold i64_chk in H. destruct (i64_ok (now - next_period st)); [|done].
  simpl in H. rewrite Z.quot_mul in H by lia.
  destruct (i64_ok _); [|done]. simplify_eq. by eexists.
Qed.

(** When the call is not late by less than a minute, [extra_periods]
    is the floor of the elapsed time over the interval. *)
Lemma extra_periods_floor (st : Staking) (now e : Z) :
  extra_periods st now = Some e ->
  next_period st <= now -> 0 < period_interval st ->
  e = (now - next_period st) / (period_interval st * SECONDS_IN_A_DAY).
Proof.
  intros H Hle HI. destruct (extra_periods_unfold st now e HI H) as (q & -> & ->).
  pose proof ONE_pos as HO. set (O := Dec.ONE) in *.
  set (I := period_interval st) in *. set (d := now - next_period st) in *.
  unfold SECONDS_IN_A_DAY.
  rewrite Z.quot_div_nonneg by nia.
  replace (d * O * O) with ((d * O) * O) by ring.
  replace (I * O * 86400) with ((I * 86400) * O) by ring.
  rewrite Z.div_mul_cancel_r by lia.
  rewrite Z.div_div by lia.
  by rewrite Z.div_mul_cancel_r by lia.
Qed.

(** Called less than one interval early, [extra_periods] is at least -1. *)
Lemma extra_periods_ge (st : Staking) (now e : Z) :
  extra_periods st now = Some e ->
  0 < period_interval st ->
  next_period st - period_interval st * SECONDS_IN_A_DAY < now ->
  -1 <= e.
Proof.
  intros H HI Hlt. destruct (extra_periods_unfold st now e HI H) as (q & Hq & ->).
  pose proof ONE_pos as HO. set (O := Dec.ONE) in *.
  set (I := period_interval st) in *. set (d := now - next_period st) in *.
  unfold SECONDS_IN_A_DAY in *.
  apply Z.div_le_lower_bound; [lia|].
  destruct (Z.le_gt_cases 0 d).
  - subst q. pose proof (Z.quot_pos (d * O * O) (I * O * 86400)). nia.
  - assert (Hm : Z.quot (- (d * O * O)) (I * O * 86400) < O).
    { rewrite Z.quot_div_nonneg by nia.
      apply Z.div_lt_upper_bound; nia. }
    rewrite Z.quot_opp_l in Hm by nia. subst q. lia.
Qed.

(** ** Period advance *)

(** C1: a successful [update_period] either changes nothing (before
    [next_period]) or freezes, for every registered asset and for the
    single period [current_period] only, the rate
    [reward_amount / staked_amount] (or [0] with nothing staked),
    increments [current_period] by one and moves [next_period] by
    [(1 + extra_periods) * period_interval] days, where
    [extra_periods] is the floor of the overdue time over the interval. *)
Theorem update_period_freezes_single_period (st st' : Staking) (now : Z) :
  update_period st now = Some st' ->
  if current_time_is_at_or_after now (next_period st) then
    (forall a, a ∈ stakables st ->
       exists su, stakes st !! a = Some su /\
         stakes st' !! a =
           Some (SuUpd.with_rewards
                   (<[current_period st :=
                       if decide (0 < StakableUnit.staked_amount su)
                       then Z.quot (StakableUnit.reward_amount su * Dec.ONE)
                                   (StakableUnit.staked_amount su)
                       else 0]> (StakableUnit.rewards su)) su)) /\
    (forall a, a ∉ stakables st -> stakes st' !! a = stakes st !! a) /\
    current_period st' = current_period st + 1 /\
    (exists e, extra_periods st now = Some e /\
       next_period st' = next_period st + (1 + e) * period_interval st * SECONDS_IN_A_DAY /\
       (next_period st <= now -> 0 < period_interval st ->
        e = (now - next_period st) / (period_interval st * SECONDS_IN_A_DAY))) /\
    stakables st' = stakables st /\ period_interval st' = period_interval st /\
    id_manager st' = id_manager st
  else st' = st.
Proof.
  intros H. unfold update_period in H.
  destruct (extra_periods st now) as [e|] eqn:He; simpl in H; [|done].
  destruct (current_time_is_at_or_after now (next_period st)); [|by simplify_eq].
  destruct (freeze_rates _ _ _) as [s|] eqn:Hf; simpl in H; [|done].
  destruct (freeze_rates_spec _ _ _ _ Hf) as [Hdom Hs].
  unfold i64_chk in H.
  destruct (i64_ok (current_period st + 1)); simpl in H; [|done].
  destruct (i64_ok (1 + e)); simpl in H; [|done].
  destruct (i64_ok ((1 + e) * period_interval st)); simpl in H; [|done].
  unfold add_days, i64_chk in H.
  destruct (i64_ok (_ * SECONDS_IN_A_DAY)); simpl in H; [|done].
  destruct (i64_ok (next_period st + _)); simpl in H; [|done].
  simplify_eq. unfold set_periods. simpl.
  split; [|split; [|split; [done|split]]].
  - intros a Ha. destruct (Hdom a Ha) as [su Hsu]. exists su. split; [done|].
    rewrite Hs. case_decide; [|done]. rewrite Hsu. simpl.
    by rewrite frozen_rate_value.
  - intros a Ha. rewrite Hs. by case_decide.
  - exists e. split; [done|]. split; [lia|]. by apply extra_periods_floor.
  - done.
Qed.

(** ** Claims *)

Lemma get_id_put_id (st : Staking) (n : Z) (d : Id.t) :
  get_id (id_manager (put_id n d st)) n = Some d.
Proof. unfold get_id, put_id, put_data. simpl. by rewrite lookup_insert_eq. Qed.

Lemma get_id_put_id_ne (st : Staking) (n m : Z) (d : Id.t) :
  n <> m -> get_id (id_manager (put_id n d st)) m = get_id (id_manager st) m.
Proof. intros Hne. unfold get_id, put_id, put_data. simpl. by rewrite lookup_insert_ne. Qed.

Lemma fold_leftM_week_reward (r : gmap Z Z) (cur : Z) (staked_vector : list Z)
    (index : nat) (ws : list Z) (acc x : Z) :
  fold_leftM (add_week_reward r cur staked_vector index) ws acc = Some x ->
  x = acc + sumZ (period_reward r (default 0 (staked_vector !! index)))
              (map (fun week => cur - week) ws).
Proof.
  revert acc. induction ws as [|w ws IH]; intros acc H; simpl in *.
  - simplify_eq. lia.
  - destruct (add_week_reward r cur staked_vector index acc w) as [a'|] eqn:Ha;
      simpl in H; [|done].
    apply IH in H. unfold add_week_reward in Ha. unfold period_reward at 1.
    destruct (r !! (cur - w)) as [rt|].
    + destruct (staked_vector !! index) as [sv|]; simpl in Ha; [|done].
      simplify_eq. simpl. lia.
    + simplify_eq. lia.
Qed.

Lemma claim_loop_total (s : gmap Z StakableUnit.t) (sl : list Z) (index : nat)
    (staked_vector : list Z) (cur w acc x : Z) :
  claim_loop s sl index staked_vector cur w acc = Some x ->
  x = acc + claim_total s sl index staked_vector cur w.
Proof.
  revert index acc. induction sl as [|a sl IH]; intros index acc H; simpl in *.
  - simplify_eq. lia.
  - destruct (s !! a) as [su|]; simpl in H; [|done].
    destruct (fold_leftM _ _ _) as [acc'|] eqn:Hf; simpl in H; [|done].
    apply fold_leftM_week_reward in Hf. apply IH in H.
    unfold claimable_periods. lia.
Qed.

Lemma claimed_weeks_min (cur next max_delay : Z) :
  claimed_weeks cur next max_delay = Z.min (cur - next + 1) max_delay.
Proof. unfold claimed_weeks. destruct (Z.ltb_spec max_delay (cur - next + 1)); lia. Qed.

Lemma claimable_periods_length (cur w : Z) :
  length (claimable_periods cur w) = Z.to_nat w.
Proof. unfold claimable_periods, week_range. by rewrite !length_map, length_seq. Qed.

Lemma claimable_periods_elem (cur w p : Z) :
  p ∈ claimable_periods cur w <-> cur - w <= p < cur.
Proof.
  unfold claimable_periods, week_range. rewrite map_map, list_elem_of_fmap.
  split.
  - intros (k & -> & Hk). apply elem_of_seq in Hk. lia.
  - intros Hp. exists (Z.to_nat (cur - p - 1)). split; [lia|].
    apply elem_of_seq. lia.
Qed.

(** C2: [update_id] fails when [min(current_period - next_period + 1,
    max_claim_delay)] is not positive; otherwise it pays, summed over
    the registered assets and the periods [current_period - 1] down to
    [current_period - claimable], the frozen rate times the position's
    staked amount at the asset's index, and sets the position's
    [next_period] to [current_period + 1].  [current_period] is the one
    seen after the roll-forward done by [check_indexes]. *)
Theorem update_id_claim (st : Staking) (now id : Z) :
  (forall st1 d,
     check_indexes st now id = Some st1 -> get_id (id_manager st1) id = Some d ->
     Z.min (current_period st1 - Id.next_period d + 1) (max_claim_delay st1) <= 0 ->
     update_id st now id = None) /\
  (forall st' out,
     update_id st now id = Some (st', out) ->
     exists st1 d,
       check_indexes st now id = Some st1 /\ get_id (id_manager st1) id = Some d /\
       let w := Z.min (current_period st1 - Id.next_period d + 1) (max_claim_delay st1) in
       0 < w /\ w <= max_claim_delay st1 /\
       out = claim_total (stakes st1) (stakables st1) 0 (Id.amounts_staked d)
               (current_period st1) w /\
       length (claimable_periods (current_period st1) w) = Z.to_nat w /\
       (forall p, p ∈ claimable_periods (current_period st1) w <->
                  current_period st1 - w <= p < current_period st1) /\
       get_id (id_manager st') id =
         Some (IdUpd.with_next_period (current_period st1 + 1) d)).
Proof.
  split.
  - intros st1 d Hc Hd Hw. unfold update_id. rewrite Hc. simpl. rewrite Hd. simpl.
    rewrite claimed_weeks_min.
    by destruct (Z.ltb_spec 0 (Z.min (current_period st1 - Id.next_period d + 1)
                                       (max_claim_delay st1))); [lia|].
  - intros st' out H. unfold update_id in H.
    destruct (check_indexes st now id) as [st1|] eqn:Hc; simpl in H; [|done].
    destruct (get_id (id_manager st1) id) as [d|] eqn:Hd; simpl in H; [|done].
    rewrite claimed_weeks_min in H.
    set (w := Z.min (current_period st1 - Id.next_period d + 1) (max_claim_delay st1)) in *.
    destruct (Z.ltb_spec 0 w); simpl in H; [|done].
    destruct (assert_true (i64_ok _)) as [[]|]; simpl in H; [|done].
    destruct (claim_loop _ _ _ _ _ _ _) as [x|] eqn:Hl; simpl in H; [|done].
    destruct (vault_take _ _) as [v|]; simpl in H; [|done].
    simplify_eq. apply claim_loop_total in Hl.
    exists st1, d. split; [done|]. split; [done|]. simpl.
    split; [done|]. split; [lia|]. split; [exact Hl|].
    split; [apply claimable_periods_length|].
    split; [apply claimable_periods_elem|].
    apply (get_id_put_id st1 id).
Qed.

(** ** Unstaking *)

Lemma mint_non_fungible_data (rm rm' : ResourceManager.t) (n : Z) (d : nf_data) :
  mint_non_fungible rm n d = Some rm' ->
  ResourceManager.data rm' !! n = Some d /\
  ResourceManager.data_type rm' = ResourceManager.data_type rm /\
  ResourceManager.address rm' = ResourceManager.address rm.
Proof.
  unfold mint_non_fungible. case_decide; [|done].
  destruct (ResourceManager.data rm !! n); [done|]. intros; simplify_eq. simpl.
  by rewrite lookup_insert_eq.
Qed.

(** C3 (amended): a request for at least the staked amount does not
    fail on that account: it behaves exactly as "unstake all", the
    receipt records the whole staked amount and the position's staked
    amount at that index becomes 0. *)
Theorem start_unstake_excess_clamped (st : Staking) (now id address x : Z)
    (stake_transfer : bool) (st1 : Staking) (d : Id.t) (index : nat) (s : Z) :
  check_indexes st now id = Some st1 ->
  get_id (id_manager st1) id = Some d ->
  position address (stakables st1) = Some index ->
  Id.amounts_staked d !! index = Some s ->
  s <= x ->
  start_unstake st now id address x false stake_transfer =
    start_unstake st now id address x true stake_transfer /\
  (forall st' n,
     start_unstake st now id address x false false = Some (st', n) ->
     (exists r, get_unstake (unstake_receipt_manager st') n = Some r /\
                UnstakeReceipt.address r = address /\ UnstakeReceipt.amount r = s) /\
     (exists d', get_id (id_manager st') id = Some d' /\
                 Id.amounts_staked d' !! index = Some 0)).
Proof.
  intros Hc Hd Hp Hs Hle. split.
  - unfold start_unstake. rewrite Hc. simpl. rewrite Hd. simpl. rewrite Hp. simpl.
    rewrite Hs. simpl. rewrite (proj2 (Z.leb_le s x) Hle), Z.leb_refl. done.
  - intros st' n H. unfold start_unstake in H. rewrite Hc in H. simpl in H.
    rewrite Hd in H. simpl in H. rewrite Hp in H. simpl in H. rewrite Hs in H.
    simpl in H. rewrite (proj2 (Z.leb_le s x) Hle) in H.
    destruct (assert_true (0 <? s)); simpl in H; [|done].
    destruct (Id.locked_until d !! index) as [l|]; simpl in H; [|done].
    destruct (match l with Some t => _ | None => _ end); simpl in H; [|done].
    destruct (stakes st1 !! address) as [su|]; simpl in H; [|done].
    destruct (add_days now _) as [rt|]; simpl in H; [|done].
    destruct (assert_true (u64_ok _)) as [[]|]; simpl in H; [|done].
    destruct (mint_non_fungible _ _ _) as [rm|] eqn:Hm; simpl in H; [|done].
    simplify_eq. apply mint_non_fungible_data in Hm as (Hm & _ & _). split.
    + eexists. unfold get_unstake. simpl. rewrite Hm. split; [done|]. done.
    + eexists. split; [apply (get_id_put_id _ id)|]. simpl.
      apply list_lookup_insert_eq. by eapply lookup_lt_Some.
Qed.

(** C3 counterexample: ID 1 has 350 of asset 1 staked, and a request
    to unstake 500 of it succeeds. *)
Lemma start_unstake_excess_succeeds :
  get_id (id_manager demo_staked) 1 =
    Some (Id.mk [Dec.of_int 350] [0] 1 [None]) /\
  is_Some (start_unstake demo_staked 120 1 1 (Dec.of_int 500) false false).
Proof. split; [vm_compute; reflexivity | eexists; vm_compute; reflexivity]. Qed.

(** ** Frame of the period roll-forward and of the reconciliation *)

Lemma set_periods_same (st : Staking) :
  set_periods (current_period st) (next_period st) (stakes st) st = st.
Proof. by destruct st. Qed.

Lemma update_period_frame (st stu : Staking) (now : Z) :
  update_period st now = Some stu ->
  exists cp np s, stu = set_periods cp np s st /\ current_period st <= cp /\
    (0 < period_interval st -> next_period st <= np) /\
    (forall a, StakableUnit.staked_amount <$> s !! a =
               StakableUnit.staked_amount <$> stakes st !! a).
Proof.
  intros H. unfold update_period in H.
  destruct (extra_periods st now) as [e|] eqn:He; simpl in H; [|done].
  destruct (current_time_is_at_or_after now (next_period st)) eqn:Hat.
  2:{ assert (stu = st) as -> by congruence.
      exists (current_period st), (next_period st), (stakes st).
      rewrite set_periods_same. repeat split; lia. }
  destruct (freeze_rates _ _ _) as [s|] eqn:Hf; simpl in H; [|done].
  destruct (freeze_rates_spec _ _ _ _ Hf) as [_ Hs].
  unfold i64_chk in H.
  destruct (i64_ok (current_period st + 1)); simpl in H; [|done].
  destruct (i64_ok (1 + e)); simpl in H; [|done].
  destruct (i64_ok ((1 + e) * period_interval st)); simpl in H; [|done].
  unfold add_days, i64_chk in H.
  destruct (i64_ok (_ * SECONDS_IN_A_DAY)); simpl in H; [|done].
  destruct (i64_ok (next_period st + _)); simpl in H; [|done].
  simplify_eq. eexists _, _, s. split; [reflexivity|]. split; [lia|]. split.
  - intros HI. unfold current_time_is_at_or_after in Hat. apply Z.leb_le in Hat.
    assert (-1 <= e).
    { apply (extra_periods_ge st now e He HI).
      pose proof (Z.mul_div_le (next_period st) 60).
      pose proof (Z.mod_pos_bound (next_period st) 60).
      pose proof (Z.div_mod (next_period st) 60).
      unfold SECONDS_IN_A_DAY. lia. }
    unfold SECONDS_IN_A_DAY. nia.
  - intros a. rewrite Hs. case_decide; [|done].
    destruct (stakes st !! a) as [su|]; [|done]. simpl. by destruct su.
Qed.

Lemma put_id_same (st : Staking) (id : Z) (d : Id.t) :
  get_id (id_manager st) id = Some d -> put_id id d st = st.
Proof.
  unfold get_id. intros H. destruct st as [????? ????? im ?????]. simpl in *.
  destruct im as [a t m]. simpl in *.
  destruct (m !! id) as [[]|] eqn:Hm; try done. simplify_eq.
  unfold put_id, set_id_manager, set_ids, put_data. simpl. by rewrite insert_id.
Qed.

Lemma check_indexes_frame (st st1 : Staking) (now id : Z) :
  check_indexes st now id = Some st1 ->
  exists stu d,
    (exists cp np s, stu = set_periods cp np s st /\ current_period st <= cp /\
       (0 < period_interval st -> next_period st <= np) /\
       (forall a, StakableUnit.staked_amount <$> s !! a =
                  StakableUnit.staked_amount <$> stakes st !! a)) /\
    get_id (id_manager st) id = Some d /\
    (length (Id.amounts_staked d) <= length (stakables st))%nat /\
    st1 = put_id id (reconciled d (length (stakables st))) stu.
Proof.
  intros H. unfold check_indexes in H.
  destruct (if current_time_is_at_or_after now (next_period st)
            then update_period st now else Some st) as [stu|] eqn:Hu; simpl in H; [|done].
  assert (Hf : exists cp np s, stu = set_periods cp np s st /\ current_period st <= cp /\
       (0 < period_interval st -> next_period st <= np) /\
       (forall a, StakableUnit.staked_amount <$> s !! a =
                  StakableUnit.staked_amount <$> stakes st !! a)).
  { destruct (current_time_is_at_or_after _ _).
    - by apply update_period_frame in Hu.
    - assert (stu = st) as -> by congruence.
      exists (current_period st), (next_period st), (stakes st).
      rewrite set_periods_same. repeat split; lia. }
  destruct Hf as (cp & np & s & -> & Hf).
  destruct (get_id _ id) as [d|] eqn:Hd; simpl in H; [|done].
  exists (set_periods cp np s st), d. split; [by eauto|]. simpl in Hd.
  split; [done|]. simpl in H.
  case_decide as Heq.
  - simplify_eq. split; [lia|].
    unfold reconciled. rewrite <- Heq, Nat.sub_diag. simpl. rewrite !app_nil_r.
    destruct d. symmetry. by apply put_id_same.
  - case_decide; [|done]. simplify_eq. split; [done|]. reflexivity.
Qed.

(** ** Reconciliation *)

(** C4 (code defect): [check_indexes] extends [amounts_staked] and
    [locked_until] but not [amounts_locked].  ID 1 is created with no
    asset registered; after asset 1 is registered, reconciliation leaves
    its [amounts_locked] empty while the other two vectors have length 1. *)
Theorem check_indexes_skips_amounts_locked :
  stakables demo_late_asset = [1] /\
  get_id (id_manager demo_late_asset) 1 = Some (Id.mk [] [] 1 []) /\
  exists st1 d1,
    check_indexes demo_late_asset 60 1 = Some st1 /\
    get_id (id_manager st1) 1 = Some d1 /\
    length (Id.amounts_staked d1) = 1%nat /\ length (Id.locked_until d1) = 1%nat /\
    length (Id.amounts_locked d1) = 0%nat.
Proof.
  split; [vm_compute; reflexivity|]. split; [vm_compute; reflexivity|].
  do 2 eexists. split; [vm_compute; reflexivity|].
  split; [vm_compute; reflexivity|]. vm_compute. repeat split.
Qed.

(** C10: [set_lock] does not reconcile: with [locked_until] not
    covering the asset's registry index it aborts on the vector access,
    while [stake], [start_unstake], [update_id] and [lock_stake] only
    succeed after [check_indexes] has succeeded. *)
Theorem set_lock_skips_reconciliation (st : Staking) (id : Z) :
  (forall address lock_until d index,
     get_id (id_manager st) id = Some d ->
     position address (stakables st) = Some index ->
     (length (Id.locked_until d) <= index)%nat ->
     set_lock st address lock_until id = None) /\
  (forall now address b r st',
     stake st now address b id r = Some st' -> is_Some (check_indexes st now id)) /\
  (forall now address x all tr res,
     start_unstake st now id address x all tr = Some res -> is_Some (check_indexes st now id)) /\
  (forall now res, update_id st now id = Some res -> is_Some (check_indexes st now id)) /\
  (forall now address res,
     lock_stake st now address id = Some res -> is_Some (check_indexes st now id)).
Proof.
  split; [|split; [|split; [|split]]].
  - intros address lock_until d index Hd Hp Hlen. unfold set_lock.
    destruct (assert_true (dao_controlled st)); simpl; [|done].
    rewrite Hd. simpl. rewrite Hp. simpl.
    rewrite bool_decide_false by lia. done.
  - intros now address b r st' H. unfold stake in H.
    destruct (check_indexes st now id); [by eexists|done].
  - intros now address x all tr res H. unfold start_unstake in H.
    destruct (check_indexes st now id); [by eexists|done].
  - intros now res H. unfold update_id in H.
    destruct (check_indexes st now id); [by eexists|done].
  - intros now address res H. unfold lock_stake in H.
    destruct (check_indexes st now id); [by eexists|done].
Qed.

(** ** Stake transfer receipts *)

(** Unfold every [option] bind and [match] of a hypothesis. *)
Ltac inv_opt := repeat (simplify_option_eq || case_match).

(** Replace a successful [check_indexes] by its frame. *)
Ltac open_check H :=
  match type of H with
  | context [check_indexes ?st ?now ?id] =>
      let Hc := fresh "Hc" in
      destruct (check_indexes st now id) eqn:Hc; simpl in H; [|discriminate];
      destruct (check_indexes_frame _ _ _ _ Hc)
        as (? & ? & (? & ? & ? & -> & ?) & ? & ? & ->)
  end.

Lemma mint_non_fungible_type (rm rm' : ResourceManager.t) (n : Z) (d : nf_data) :
  mint_non_fungible rm n d = Some rm' -> type_of d = ResourceManager.data_type rm.
Proof. unfold mint_non_fungible. by case_decide. Qed.

Lemma exec_keeps_transfer_type (st st' : Staking) (now : Z) (c : call) :
  exec st now c = Some st' ->
  ResourceManager.data_type (stake_transfer_receipt_manager st') =
  ResourceManager.data_type (stake_transfer_receipt_manager st).
Proof.
  intros H. destruct c; simpl in H.
  - unfold create_id in H. inv_opt; done.
  - unfold stake in H. open_check H. inv_opt; done.
  - unfold start_unstake in H. open_check H. inv_opt; simpl; try done.
    all: match goal with
         | Hm : mint_non_fungible _ _ _ = Some _ |- _ =>
             apply mint_non_fungible_data in Hm as (_ & ? & _); done
         end.
  - unfold finish_unstake in H. inv_opt; done.
  - unfold update_id in H. open_check H. inv_opt; done.
  - apply update_period_frame in H as (? & ? & ? & -> & _). done.
  - unfold lock_stake in H. open_check H. inv_opt; done.
  - unfold set_lock in H. inv_opt; done.
  - by simplify_eq.
  - unfold set_rewards in H. inv_opt; done.
  - by simplify_eq.
  - by simplify_eq.
  - unfold remove_rewards in H. inv_opt; done.
  - unfold add_stakable in H. inv_opt; done.
  - unfold edit_stakable in H. inv_opt; done.
  - by simplify_eq.
  - unfold set_unstake_delay in H. inv_opt; done.
Qed.

Lemma reachable_transfer_type (st : Staking) :
  reachable st ->
  ResourceManager.data_type (stake_transfer_receipt_manager st) = TUnstakeReceipt.
Proof.
  induction 1 as [now pi rw dao mud a1 a2 a3 st H|st now c st' _ IH H].
  - unfold new in H. inv_opt; done.
  - by rewrite (exec_keeps_transfer_type _ _ _ _ H).
Qed.

(** C7 (code defect): the stake transfer receipt resource is created
    for [UnstakeReceipt] data, while [start_unstake] mints a
    [StakeTransferReceipt] into it; the ledger refuses the mint, so in
    every reachable state [start_unstake] with [stake_transfer = true]
    aborts. *)
Theorem start_unstake_transfer_aborts (st : Staking) (now id address x : Z)
    (unstake_all : bool) :
  reachable st ->
  start_unstake st now id address x unstake_all true = None.
Proof.
  intros Hr. apply reachable_transfer_type in Hr.
  destruct (start_unstake st now id address x unstake_all true) as [res|] eqn:H; [|done].
  exfalso. unfold start_unstake in H. open_check H. inv_opt.
  all: match goal with
       | Hm : mint_non_fungible _ _ _ = Some _ |- _ =>
           apply mint_non_fungible_type in Hm; simpl in Hm; congruence
       end.
Qed.

(** C9 (code defect): [start_unstake] accepts a negative amount, which
    credits the position without any deposit and mints a receipt for a
    negative amount.  In the run [demo_negative_calls] ID 1 stakes 10,
    requests an unstake of -5 (its stake becomes 15, receipt 1 records
    -5), then unstakes everything (receipt 2 records 15).  At its
    redemption time receipt 2 cannot be redeemed: the vault holds 10. *)
Theorem finish_unstake_after_negative_request :
  run demo_new demo_negative_calls = Some demo_negative /\
  get_unstake (unstake_receipt_manager demo_negative) 1 =
    Some (UnstakeReceipt.mk 1 (Dec.of_int (-5)) (120 + 7 * SECONDS_IN_A_DAY)) /\
  get_unstake (unstake_receipt_manager demo_negative) 2 =
    Some (UnstakeReceipt.mk 1 (Dec.of_int 15) (180 + 7 * SECONDS_IN_A_DAY)) /\
  StakableUnit.vault <$> stakes demo_negative !! 1 = Some (Dec.of_int 10) /\
  current_time_is_at_or_after (180 + 7 * SECONDS_IN_A_DAY) (180 + 7 * SECONDS_IN_A_DAY) = true /\
  finish_unstake demo_negative (180 + 7 * SECONDS_IN_A_DAY) (102, 2) = None /\
  finish_unstake demo_negative (180 + 7 * SECONDS_IN_A_DAY) (102, 1) = None.
Proof.
  repeat (refine (conj _ _); [vm_compute; reflexivity|]). vm_compute; reflexivity.
Qed.

(** ** Eligibility of new stake *)

(** C6 counterexample: ID 1 holds nothing until it stakes 350 during
    period 0; its claim in period 1 pays period 0's frozen rate (2 per
    unit) on those 350. *)
Lemma stake_rewarded_in_its_own_period :
  get_id (id_manager (default demo_new (run demo_new (take 2 demo_calls)))) 1 =
    Some (Id.mk [0] [0] 1 [None]) /\
  current_period demo_staked = 0 /\
  get_id (id_manager demo_staked) 1 = Some (Id.mk [Dec.of_int 350] [0] 1 [None]) /\
  exists st',
    update_id demo_staked (7 * SECONDS_IN_A_DAY) 1 =
      Some (st', Dec.mul (Dec.of_int 2) (Dec.of_int 350)) /\
    stakes st' !! 1 ≫= (fun su => StakableUnit.rewards su !! 0) = Some (Dec.of_int 2) /\
    0 < Dec.mul (Dec.of_int 2) (Dec.of_int 350).
Proof.
  split; [vm_compute; reflexivity|]. split; [vm_compute; reflexivity|].
  split; [vm_compute; reflexivity|].
  eexists. split; [vm_compute; reflexivity|]. split; vm_compute; reflexivity.
Qed.

Lemma stake_sets_next_period (st st' : Staking) (now address id : Z)
    (stake_bucket stake_transfer_receipt : option (Z * Z)) :
  stake st now address stake_bucket id stake_transfer_receipt = Some st' ->
  exists d', get_id (id_manager st') id = Some d' /\
             Id.next_period d' = current_period st' + 1.
Proof.
  intros H. unfold stake in H. open_check H. inv_opt.
  all: eexists; split;
    [unfold get_id, put_data; simpl; by rewrite lookup_insert_eq|reflexivity].
Qed.

(** [update_period] keeps the IDs, the registry and the claim window,
    and never lowers the period counter. *)
Lemma update_period_keeps (st st' : Staking) (now : Z) :
  update_period st now = Some st' ->
  id_manager st' = id_manager st /\ stakables st' = stakables st /\
  max_claim_delay st' = max_claim_delay st /\ current_period st <= current_period st'.
Proof.
  intros H. apply update_period_frame in H as (cp & np & s & -> & Hcp & _). done.
Qed.

Lemma run_update_periods_keeps (st st' : Staking) (ts : list Z) :
  run st (map (fun t => (t, UpdatePeriod)) ts) = Some st' ->
  id_manager st' = id_manager st /\ stakables st' = stakables st /\
  max_claim_delay st' = max_claim_delay st /\ current_period st <= current_period st'.
Proof.
  revert st. induction ts as [|t ts IH]; intros st H; simpl in H.
  - simplify_eq. done.
  - destruct (update_period st t) as [st1|] eqn:Hu; simpl in H; [|done].
    apply update_period_keeps in Hu as (? & ? & ? & ?).
    apply IH in H as (? & ? & ? & ?). split_and!; try congruence; lia.
Qed.

Lemma staked_at_reconciled (i n : nat) (d : Id.t) :
  staked_at i (reconciled d n) = staked_at i d.
Proof.
  unfold staked_at, reconciled. simpl. rewrite lookup_app.
  destruct (Id.amounts_staked d !! i); [done|]. simpl.
  destruct (replicate _ 0 !! _) eqn:E; [|done].
  by apply lookup_replicate in E as [-> _].
Qed.

Lemma claim_total_ext (s : gmap Z StakableUnit.t) (sl : list Z) (index : nat)
    (v v' : list Z) (cur w : Z) :
  (forall i, default 0 (v !! i) = default 0 (v' !! i)) ->
  claim_total s sl index v cur w = claim_total s sl index v' cur w.
Proof.
  intros Hv. revert index. induction sl as [|a sl IH]; intros index; simpl; [done|].
  by rewrite Hv, IH.
Qed.

(** C6 (amended): a stake in period [P] sets the position's
    [next_period] to [P + 1], yet the claim that follows it pays period
    [P].  When the next call on the ID is [update_id], with only
    [update_period] calls in between, the claim succeeds only in a
    period [C] with [P < C]; when [C - P <= max_claim_delay] it pays,
    summed over the registered assets, the frozen rate of every period
    [P], ..., [C - 1] times the position's staked amounts right after
    the stake, the amount added during [P] included. *)
Theorem stake_claim_includes_stake_period (st st' : Staking) (now address id : Z)
    (stake_bucket stake_transfer_receipt : option (Z * Z)) :
  stake st now address stake_bucket id stake_transfer_receipt = Some st' ->
  exists d',
    get_id (id_manager st') id = Some d' /\
    Id.next_period d' = current_period st' + 1 /\
    forall (ts : list Z) (st'' st3 : Staking) (now' out : Z),
      run st' (map (fun t => (t, UpdatePeriod)) ts) = Some st'' ->
      update_id st'' now' id = Some (st3, out) ->
      exists st1,
        check_indexes st'' now' id = Some st1 /\
        current_period st' < current_period st1 /\
        (current_period st1 - current_period st' <= max_claim_delay st' ->
         current_period st' ∈ claimable_periods (current_period st1)
                                 (current_period st1 - current_period st') /\
         out = claim_total (stakes st1) (stakables st1) 0 (Id.amounts_staked d')
                 (current_period st1) (current_period st1 - current_period st')).
Proof.
  intros H. destruct (stake_sets_next_period _ _ _ _ _ _ _ H) as (d' & Hd & Hn).
  exists d'. split; [done|]. split; [done|].
  intros ts st'' st3 now' out Hrun Hu.
  destruct (run_update_periods_keeps _ _ _ Hrun) as (Him & Hsl & Hmcd & Hcp).
  unfold update_id in Hu.
  destruct (check_indexes st'' now' id) as [st1|] eqn:Hc; simpl in Hu; [|done].
  exists st1. split; [done|].
  destruct (check_indexes_frame _ _ _ _ Hc)
    as (stu & d0 & (cp & np & s & -> & Hcp' & _ & _) & Hd0 & _ & ->).
  rewrite Him, Hd in Hd0. injection Hd0 as <-.
  rewrite get_id_put_id in Hu. simpl in Hu. rewrite claimed_weeks_min in Hu.
  simpl in *. rewrite Hn, Hmcd in Hu.
  destruct (Z.ltb_spec 0 (Z.min (cp - (current_period st' + 1) + 1) (max_claim_delay st')))
    as [Hw|]; simpl in Hu; [|done].
  destruct (assert_true (i64_ok _)) as [[]|]; simpl in Hu; [|done].
  destruct (claim_loop _ _ _ _ _ _ _) as [x|] eqn:Hl; simpl in Hu; [|done].
  destruct (vault_take _ _) as [v|]; simpl in Hu; [|done].
  simplify_eq. apply claim_loop_total in Hl. simpl in Hl.
  split; [lia|]. intros Hle. split.
  - apply claimable_periods_elem. lia.
  - rewrite Hl. replace (Z.min (cp - (current_period st' + 1) + 1) (max_claim_delay st'))
      with (cp - current_period st') by lia.
    simpl. apply claim_total_ext. intros i. apply (staked_at_reconciled i).
Qed.

(** ** Monotonicity of the period counter and boundary *)

Ltac finish_periods :=
  simpl in *; destruct_and?;
  split; [lia|split; [left; reflexivity|intros; auto with lia]].

Lemma exec_periods (st st' : Staking) (now : Z) (c : call) :
  exec st now c = Some st' ->
  current_period st <= current_period st' /\
  (period_interval st' = period_interval st \/
   exists v, c = SetPeriodInterval v /\ period_interval st' = v) /\
  (c <> SetNextPeriodToNow -> 0 < period_interval st -> next_period st <= next_period st').
Proof.
  intros H. destruct c; simpl in H.
  - unfold create_id in H. inv_opt. finish_periods.
  - unfold stake in H. open_check H. inv_opt; finish_periods.
  - unfold start_unstake in H. open_check H. inv_opt; finish_periods.
  - unfold finish_unstake in H. inv_opt; finish_periods.
  - unfold update_id in H. open_check H. inv_opt; finish_periods.
  - apply update_period_frame in H as (? & ? & ? & -> & ?). finish_periods.
  - unfold lock_stake in H. open_check H. inv_opt; finish_periods.
  - unfold set_lock in H. inv_opt; finish_periods.
  - simplify_eq. simpl. split; [lia|split; [right; by eexists|intros; lia]].
  - unfold set_rewards in H. inv_opt; finish_periods.
  - simplify_eq. finish_periods.
  - simplify_eq. finish_periods.
  - unfold remove_rewards in H. inv_opt; finish_periods.
  - unfold add_stakable in H. inv_opt; finish_periods.
  - unfold edit_stakable in H. inv_opt; finish_periods.
  - simplify_eq. simpl. split; [lia|split; [left; reflexivity|by intros ?]].
  - unfold set_unstake_delay in H. inv_opt; finish_periods.
Qed.

(** C5 counterexample: right after instantiation (boundary at day 7),
    the admin call [set_next_period_to_now] at minute 1 moves the
    boundary back to minute 1. *)
Lemma set_next_period_to_now_moves_back :
  exec demo_new 60 SetNextPeriodToNow = Some (set_next_period 60 demo_new) /\
  next_period (set_next_period 60 demo_new) < next_period demo_new.
Proof. split; [reflexivity | vm_compute; reflexivity]. Qed.

(** C5 (amended): along any sequence of calls [current_period] never
    decreases; [next_period] never moves backward as long as the period
    interval is positive and the sequence contains neither
    [set_next_period_to_now] nor [set_period_interval] with a
    non-positive interval. *)
Theorem run_periods_monotone (st st' : Staking) (calls : list (Z * call)) :
  run st calls = Some st' ->
  current_period st <= current_period st' /\
  (0 < period_interval st -> Forall (fun nc => keeps_boundary (snd nc)) calls ->
   next_period st <= next_period st').
Proof.
  revert st. induction calls as [|[now c] calls IH]; intros st H; simpl in H.
  - simplify_eq. split; [lia|intros; lia].
  - destruct (exec st now c) as [st1|] eqn:He; simpl in H; [|done].
    destruct (exec_periods _ _ _ _ He) as (Hc & Hi & Hn).
    destruct (IH _ H) as [Hc' Hn']. split; [lia|].
    intros HI Hall. apply Forall_cons in Hall as [Hk Hall]. simpl in Hk.
    assert (HI1 : 0 < period_interval st1).
    { destruct Hi as [->|(v & -> & ->)]; [done|exact Hk]. }
    assert (next_period st <= next_period st1).
    { apply Hn; [by intros ->|done]. }
    specialize (Hn' HI1 Hall). lia.
Qed.

(** ** Conservation of staked amounts *)

Lemma total_staked_insert (i : nat) (m : gmap Z nf_data) (n : Z) (x : nf_data) :
  m !! n = None ->
  map_fold (fun _ nd acc => contrib i nd + acc) 0 (<[n := x]> m) =
  contrib i x + map_fold (fun _ nd acc => contrib i nd + acc) 0 m.
Proof.
  intros. apply (map_fold_insert_L (fun _ nd acc => contrib i nd + acc)); [intros; lia|done].
Qed.

Lemma total_staked_put (rm : ResourceManager.t) (n : Z) (d d' : Id.t) (i : nat) :
  ResourceManager.data rm !! n = Some (NfId d) ->
  total_staked i (put_data rm n (NfId d')) =
  total_staked i rm - staked_at i d + staked_at i d'.
Proof.
  intros H. unfold total_staked, put_data. simpl.
  rewrite <- insert_delete_eq, total_staked_insert by apply lookup_delete_eq.
  rewrite (map_fold_delete_L (fun _ nd acc => contrib i nd + acc) _ n (NfId d) (ResourceManager.data rm)).
  all: cycle 1. intros; lia. exact H. simpl. lia.
Qed.

Lemma total_staked_mint (rm rm' : ResourceManager.t) (n : Z) (d : Id.t) (i : nat) :
  mint_non_fungible rm n (NfId d) = Some rm' ->
  total_staked i rm' = total_staked i rm + staked_at i d.
Proof.
  unfold mint_non_fungible. case_decide; [|done].
  destruct (ResourceManager.data rm !! n) eqn:Hn; [done|]. intros; simplify_eq.
  unfold total_staked. simpl. rewrite total_staked_insert by done. simpl. lia.
Qed.

Lemma get_id_data (rm : ResourceManager.t) (n : Z) (d : Id.t) :
  get_id rm n = Some d -> ResourceManager.data rm !! n = Some (NfId d).
Proof. unfold get_id. by case_match; [case_match|]; intros; simplify_eq. Qed.


Lemma length_reconciled (d : Id.t) (n : nat) :
  (length (Id.amounts_staked d) <= n)%nat ->
  length (Id.amounts_staked (reconciled d n)) = n.
Proof. intros. unfold reconciled. simpl. rewrite length_app, length_replicate. lia. Qed.

Lemma staked_at_insert (i k : nat) (l : list Z) (v : Z) (d : Id.t) :
  (k < length l)%nat ->
  staked_at i (IdUpd.with_staked (<[k := v]> l) d) =
  if decide (i = k) then v else default 0 (l !! i).
Proof.
  intros. unfold staked_at. simpl. case_decide.
  - subst. by rewrite list_lookup_insert_eq.
  - by rewrite list_lookup_insert_ne by lia.
Qed.

Lemma inv_frame (st st' : Staking) :
  inv st ->
  stakables st' = stakables st ->
  (forall b, StakableUnit.staked_amount <$> stakes st' !! b =
             StakableUnit.staked_amount <$> stakes st !! b) ->
  (forall i, total_staked i (id_manager st') = total_staked i (id_manager st)) ->
  (forall n d, ResourceManager.data (id_manager st') !! n = Some (NfId d) ->
     (length (Id.amounts_staked d) <= length (stakables st))%nat) ->
  inv st'.
Proof.
  intros [Hnd Hk Hl Hc] Hs Hsa Ht Hl'. constructor.
  - by rewrite Hs.
  - intros a. rewrite Hs, Hk,
      <- (fmap_is_Some StakableUnit.staked_amount (stakes st' !! a)), Hsa.
    by rewrite fmap_is_Some.
  - by rewrite Hs.
  - intros i a su Hi Ha. rewrite Ht. rewrite Hs in Hi. specialize (Hsa a).
    rewrite Ha in Hsa. destruct (stakes st !! a) as [su0|] eqn:E; simpl in Hsa; [|done].
    rewrite (Hc i a su0 Hi E). congruence.
Qed.

Lemma inv_shift (st st' : Staking) (k : nat) (a x : Z) :
  inv st ->
  stakables st' = stakables st ->
  stakables st !! k = Some a ->
  (forall b, b <> a -> StakableUnit.staked_amount <$> stakes st' !! b =
                       StakableUnit.staked_amount <$> stakes st !! b) ->
  StakableUnit.staked_amount <$> stakes st' !! a =
    (fun y => y + x) <$> (StakableUnit.staked_amount <$> stakes st !! a) ->
  (forall i, total_staked i (id_manager st') =
             total_staked i (id_manager st) + if decide (i = k) then x else 0) ->
  (forall n d, ResourceManager.data (id_manager st') !! n = Some (NfId d) ->
     (length (Id.amounts_staked d) <= length (stakables st))%nat) ->
  inv st'.
Proof.
  intros [Hnd Hk Hl Hc] Hs Hka Hsa Hsx Ht Hl'.
  assert (Hsome : forall b, is_Some (stakes st' !! b) <-> is_Some (stakes st !! b)).
  { intros b. rewrite <- (fmap_is_Some StakableUnit.staked_amount),
      <- (fmap_is_Some StakableUnit.staked_amount (stakes st !! b)).
    destruct (decide (b = a)) as [->|]; [|by rewrite Hsa].
    rewrite Hsx. apply fmap_is_Some. }
  constructor.
  - by rewrite Hs.
  - intros b. by rewrite Hs, Hk, Hsome.
  - by rewrite Hs.
  - intros i b su Hi Hb. rewrite Ht. rewrite Hs in Hi.
    destruct (decide (b = a)) as [->|Hne].
    + assert (i = k) as -> by (eapply NoDup_lookup; eauto).
      rewrite Hb in Hsx. destruct (stakes st !! a) as [su0|] eqn:E; simpl in Hsx; [|done].
      rewrite (Hc k a su0 Hka E), decide_True by done. congruence.
    + assert (i <> k) by congruence. rewrite decide_False by done.
      specialize (Hsa b Hne). rewrite Hb in Hsa.
      destruct (stakes st !! b) as [su0|] eqn:E; simpl in Hsa; [|done].
      rewrite (Hc i b su0 Hi E). injection Hsa. lia.
Qed.

Lemma inv_check (st st1 : Staking) (now id : Z) :
  inv st -> check_indexes st now id = Some st1 -> inv st1.
Proof.
  intros Hi H.
  destruct (check_indexes_frame _ _ _ _ H)
    as (stu & d & (cp & np & s & -> & _ & _ & Hs) & Hd & Hlen & ->).
  apply get_id_data in Hd.
  apply (inv_frame st); [done|done|..].
  - intros b. apply Hs.
  - intros i. simpl. rewrite (total_staked_put _ _ d) by exact Hd.
    rewrite staked_at_reconciled. lia.
  - intros n d'. simpl. destruct (decide (n = id)) as [->|Hne].
    + rewrite lookup_insert_eq. intros; simplify_eq. rewrite length_reconciled; lia.
    + rewrite lookup_insert_ne by done. apply (inv_len _ Hi).
Qed.

Lemma position_lookup (a : Z) (l : list Z) (k : nat) :
  position a l = Some k -> l !! k = Some a.
Proof.
  revert k. induction l as [|x l IH]; intros k; simpl; [done|].
  destruct (Z.eqb_spec x a) as [->|]; intros H; [by simplify_eq|].
  destruct (position a l) as [k'|] eqn:E; simpl in H; [|done]. simplify_eq. simpl. auto.
Qed.

Lemma inv_view (st st' : Staking) :
  inv st -> stakables st' = stakables st -> stakes st' = stakes st ->
  id_manager st' = id_manager st -> inv st'.
Proof.
  intros Hi Hs Hst Him. apply (inv_frame st); try done.
  - intros b. by rewrite Hst.
  - intros i. by rewrite Him.
  - intros n d. rewrite Him. apply (inv_len _ Hi).
Qed.

Lemma inv_set_reward_vault (st : Staking) (v : Z) : inv st -> inv (set_reward_vault v st).
Proof. intros H. by apply (inv_view st). Qed.
Lemma inv_set_config (st : Staking) (pi mcd ud : Z) : inv st -> inv (set_config pi mcd ud st).
Proof. intros H. by apply (inv_view st). Qed.
Lemma inv_set_next_period (st : Staking) (np : Z) : inv st -> inv (set_next_period np st).
Proof. intros H. by apply (inv_view st). Qed.
Lemma inv_set_unstake_receipts (st : Staking) c rm : inv st -> inv (set_unstake_receipts c rm st).
Proof. intros H. by apply (inv_view st). Qed.
Lemma inv_set_stake_transfer_receipts (st : Staking) c rm :
  inv st -> inv (set_stake_transfer_receipts c rm st).
Proof. intros H. by apply (inv_view st). Qed.

(** Rewriting a unit without touching its staked amount. *)
Lemma inv_set_unit (st : Staking) (s : gmap Z StakableUnit.t) (a : Z)
    (su su' : StakableUnit.t) :
  inv st -> s = stakes st -> s !! a = Some su ->
  StakableUnit.staked_amount su' = StakableUnit.staked_amount su ->
  inv (set_stakes (<[a := su']> s) st).
Proof.
  intros Hi -> Ha Hsa. apply (inv_frame st); try done.
  - intros b. simpl. destruct (decide (b = a)) as [->|].
    + by rewrite lookup_insert_eq, Ha; simpl; rewrite Hsa.
    + by rewrite lookup_insert_ne.
  - apply (inv_len _ Hi).
Qed.

(** Rewriting an ID without touching its staked amounts. *)
Lemma inv_put_id_keep (st : Staking) (id : Z) (d d' : Id.t) :
  inv st -> get_id (id_manager st) id = Some d ->
  Id.amounts_staked d' = Id.amounts_staked d -> inv (put_id id d' st).
Proof.
  intros Hi Hd Hst. apply get_id_data in Hd. apply (inv_frame st); try done.
  - intros i. simpl. rewrite (total_staked_put _ _ d) by exact Hd.
    unfold staked_at. rewrite Hst. lia.
  - intros n d''. simpl. destruct (decide (n = id)) as [->|].
    + rewrite lookup_insert_eq. intros; simplify_eq. rewrite Hst. by apply (inv_len _ Hi id).
    + rewrite lookup_insert_ne by done. apply (inv_len _ Hi).
Qed.

(** Moving an amount into (or out of) a position and the unit's total
    together. *)
Lemma inv_shift_stake (st : Staking) (s : gmap Z StakableUnit.t) (id a : Z) (k : nat)
    (d : Id.t) (su : StakableUnit.t) (old v w : Z) :
  inv st -> s = stakes st -> get_id (id_manager st) id = Some d ->
  position a (stakables st) = Some k -> s !! a = Some su ->
  Id.amounts_staked d !! k = Some old ->
  v - old = w - StakableUnit.staked_amount su ->
  inv (set_stakes (<[a := SuUpd.with_staked_amount w su]> s)
         (put_id id (IdUpd.with_staked (<[k := v]> (Id.amounts_staked d)) d) st)).
Proof.
  intros Hi -> Hd Hk Ha Hold Hx. apply position_lookup in Hk.
  apply get_id_data in Hd.
  assert (Hlt : (k < length (Id.amounts_staked d))%nat)
    by (apply lookup_lt_is_Some; by eexists).
  apply (inv_shift st _ k a (w - StakableUnit.staked_amount su)); try done.
  - intros b Hb. simpl. by rewrite lookup_insert_ne.
  - simpl. rewrite lookup_insert_eq, Ha. simpl. f_equal. lia.
  - intros i. simpl. rewrite (total_staked_put _ _ d) by exact Hd.
    rewrite staked_at_insert by done. unfold staked_at.
    case_decide; subst; [rewrite Hold; simpl; lia|lia].
  - intros n d''. simpl. destruct (decide (n = id)) as [->|].
    + rewrite lookup_insert_eq. intros; simplify_eq. simpl. rewrite length_insert.
      by apply (inv_len _ Hi id).
    + rewrite lookup_insert_ne by done. apply (inv_len _ Hi).
Qed.

Lemma inv_shift_stake' (st : Staking) (s : gmap Z StakableUnit.t) (id a : Z) (k : nat)
    (d : Id.t) (su : StakableUnit.t) (old v w : Z) :
  inv st -> s = stakes st -> get_id (id_manager st) id = Some d ->
  position a (stakables st) = Some k -> s !! a = Some su ->
  Id.amounts_staked d !! k = Some old ->
  v - old = w - StakableUnit.staked_amount su ->
  inv (put_id id (IdUpd.with_staked (<[k := v]> (Id.amounts_staked d)) d)
         (set_stakes (<[a := SuUpd.with_staked_amount w su]> s) st)).
Proof. intros. by apply (inv_shift_stake st s id a k d su old v w). Qed.

Lemma mint_non_fungible_insert (rm rm' : ResourceManager.t) (n : Z) (d : nf_data) :
  mint_non_fungible rm n d = Some rm' ->
  ResourceManager.data rm' = <[n := d]> (ResourceManager.data rm).
Proof.
  unfold mint_non_fungible. case_decide; [|done].
  destruct (ResourceManager.data rm !! n); [done|]. intros; by simplify_eq.
Qed.

Lemma inv_create (st : Staking) (c p : Z) (n : nat) (l : list Z) (lu : list (option Z))
    (im : ResourceManager.t) :
  inv st -> n = length (stakables st) ->
  mint_non_fungible (id_manager st) c (NfId (Id.mk (replicate n 0) l p lu)) = Some im ->
  inv (set_ids c im st).
Proof.
  intros Hi -> Hm. apply (inv_frame st); try done.
  - intros i. simpl. rewrite (total_staked_mint _ _ _ _ _ Hm).
    unfold staked_at. simpl. destruct (replicate _ 0 !! i) eqn:E; simpl; [|lia].
    apply lookup_replicate in E as [-> _]. lia.
  - intros m d. simpl. rewrite (mint_non_fungible_insert _ _ _ _ Hm).
    destruct (decide (m = c)) as [->|].
    + rewrite lookup_insert_eq. intros; simplify_eq. simpl. by rewrite length_replicate.
    + rewrite lookup_insert_ne by done. apply (inv_len _ Hi).
Qed.

Lemma total_staked_beyond (i : nat) (rm : ResourceManager.t) :
  (forall n d, ResourceManager.data rm !! n = Some (NfId d) ->
     (length (Id.amounts_staked d) <= i)%nat) ->
  total_staked i rm = 0.
Proof.
  unfold total_staked. generalize (ResourceManager.data rm) as m.
  induction m as [|n x m Hn IH] using map_ind; intros Hl.
  - by rewrite map_fold_empty.
  - rewrite total_staked_insert by done. rewrite IH.
    + destruct x as [d| |]; simpl; [|lia..].
      unfold staked_at. rewrite lookup_ge_None_2; [simpl; lia|].
      apply (Hl n). by rewrite lookup_insert_eq.
    + intros n' d Hd. apply (Hl n'). rewrite lookup_insert_ne; [done|].
      intros ->. congruence.
Qed.

Lemma inv_add_stakable (st : Staking) (a : Z) (su : StakableUnit.t) :
  inv st -> stakes st !! a = None -> StakableUnit.staked_amount su = 0 ->
  inv (set_registry (<[a := su]> (stakes st)) (stakables st ++ [a]) st).
Proof.
  intros [Hnd Hk Hl Hc] Ha Hsu.
  assert (Hna : a ∉ stakables st).
  { rewrite Hk, Ha. by intros [? ?]. }
  constructor; simpl.
  - apply NoDup_app. split; [done|]. split; [|apply NoDup_singleton].
    intros x Hx ->%list_elem_of_singleton. done.
  - intros b. rewrite elem_of_app, list_elem_of_singleton.
    destruct (decide (b = a)) as [->|Hne].
    + rewrite lookup_insert_eq. split; [by eexists|auto].
    + rewrite lookup_insert_ne by done. rewrite <- Hk. intuition.
  - intros n d Hd. rewrite length_app. specialize (Hl n d Hd). simpl. lia.
  - intros i b su' Hi Hb. apply lookup_snoc_Some in Hi as [[Hlt Hi]|[-> <-]].
    + assert (b <> a) by (intros ->; apply Hna; by eapply list_elem_of_lookup_2).
      rewrite lookup_insert_ne in Hb by done. eauto.
    + rewrite lookup_insert_eq in Hb. simplify_eq. rewrite Hsu.
      apply total_staked_beyond. exact Hl.
Qed.

Lemma get_id_put_data (rm : ResourceManager.t) (n : Z) (d : Id.t) :
  get_id (put_data rm n (NfId d)) n = Some d.
Proof. unfold get_id, put_data. simpl. by rewrite lookup_insert_eq. Qed.

(** Side conditions of the preservation lemmas: lookups already in the
    context or computed from inserts. *)
Ltac lookup_side :=
  first [eassumption | by simplify_map_eq | (simpl; rewrite get_id_put_data; reflexivity) | done].

(** Peel the state updates of a method's result off, outermost first. *)
Ltac inv_chain :=
  repeat match goal with
  | H : get_id (put_data _ ?n _) ?n = Some _ |- _ =>
      rewrite get_id_put_data in H; simplify_eq
  | |- inv (put_id _ (IdUpd.with_staked _ _) (set_stakes _ _)) =>
      eapply inv_shift_stake'; [|reflexivity|lookup_side..|lia]
  | |- inv (set_stakes _ (put_id _ _ _)) =>
      eapply inv_shift_stake; [|reflexivity|lookup_side..|lia]
  | |- inv (put_id _ _ _) => eapply inv_put_id_keep; [|lookup_side|reflexivity]
  | |- inv (set_stakes (<[_ := _]> _) _) =>
      eapply inv_set_unit; [|reflexivity|lookup_side|reflexivity]
  | |- inv (set_reward_vault _ _) => apply inv_set_reward_vault
  | |- inv (set_config _ _ _ _) => apply inv_set_config
  | |- inv (set_next_period _ _) => apply inv_set_next_period
  | |- inv (set_unstake_receipts _ _ _) => apply inv_set_unstake_receipts
  | |- inv (set_stake_transfer_receipts _ _ _) => apply inv_set_stake_transfer_receipts
  end; try assumption.

Lemma inv_update_period (st st' : Staking) (now : Z) :
  inv st -> update_period st now = Some st' -> inv st'.
Proof.
  intros Hi H. apply update_period_frame in H as (cp & np & s & -> & _ & _ & Hs).
  apply (inv_frame st); try done. apply (inv_len _ Hi).
Qed.

Lemma inv_exec (st st' : Staking) (now : Z) (c : call) :
  inv st -> exec st now c = Some st' -> inv st'.
Proof.
  intros Hi H. destruct c; simpl in H.
  - unfold create_id in H. inv_opt. by eapply inv_create.
  - unfold stake in H.
    destruct (check_indexes st now id) as [st1|] eqn:Hc; simpl in H; [|done].
    apply (inv_check _ _ _ _ Hi) in Hc. clear Hi. inv_opt; inv_chain.
  - unfold start_unstake in H.
    destruct (check_indexes st now id) as [st1|] eqn:Hc; simpl in H; [|done].
    apply (inv_check _ _ _ _ Hi) in Hc. clear Hi. inv_opt; inv_chain.
  - unfold finish_unstake in H. inv_opt; inv_chain.
  - unfold update_id in H.
    destruct (check_indexes st now id) as [st1|] eqn:Hc; simpl in H; [|done].
    apply (inv_check _ _ _ _ Hi) in Hc. clear Hi. inv_opt; inv_chain.
  - by eapply inv_update_period.
  - unfold lock_stake in H.
    destruct (check_indexes st now id) as [st1|] eqn:Hc; simpl in H; [|done].
    apply (inv_check _ _ _ _ Hi) in Hc. clear Hi. inv_opt; inv_chain.
  - unfold set_lock in H. inv_opt; inv_chain.
  - simplify_eq. unfold set_period_interval. inv_chain.
  - unfold set_rewards in H. inv_opt; inv_chain.
  - simplify_eq. unfold set_max_claim_delay. inv_chain.
  - simplify_eq. unfold fill_rewards. inv_chain.
  - unfold remove_rewards in H. inv_opt; inv_chain.
  - unfold add_stakable in H. inv_opt. by apply inv_add_stakable.
  - unfold edit_stakable in H. inv_opt; inv_chain.
  - simplify_eq. unfold set_next_period_to_now. inv_chain.
  - unfold set_unstake_delay in H. inv_opt; inv_chain.
Qed.

Lemma inv_reachable (st : Staking) : reachable st -> inv st.
Proof.
  induction 1 as [now pi rw dao mud a1 a2 a3 st H|st now c st' _ IH H].
  - unfold new in H. inv_opt. constructor; simpl.
    + constructor.
    + intros a. rewrite lookup_empty. split; [intros Ha; inversion Ha|by intros [? ?]].
    + intros n d. by rewrite lookup_empty.
    + intros i a su. by rewrite lookup_nil.
  - by apply (inv_exec st st' now c).
Qed.

(** C8: in every reachable state, for every registered asset (at
    registry index [i]), the staked amounts of all staking IDs at index
    [i] add up to the unit's [staked_amount] (an ID not yet reconciled
    counts 0 there). *)
Theorem staked_amounts_conserved (st : Staking) :
  reachable st ->
  forall i a su, stakables st !! i = Some a -> stakes st !! a = Some su ->
  total_staked i (id_manager st) = StakableUnit.staked_amount su.
Proof. intros H. apply (inv_cons _ (inv_reachable st H)). Qed.

(** ** Reachability of the concrete runs *)

Lemma reachable_run (st st' : Staking) (calls : list (Z * call)) :
  reachable st -> run st calls = Some st' -> reachable st'.
Proof.
  revert st. induction calls as [|[now c] calls IH]; intros st Hr H; simpl in H.
  - by simplify_eq.
  - destruct (exec st now c) as [st1|] eqn:He; simpl in H; [|done].
    apply (IH st1); [by apply (reachable_step st now c st1)|done].
Qed.

Lemma demo_new_reachable : reachable demo_new.
Proof.
  apply (reachable_new 0 7 (Dec.of_int 1000000) true 30 100 101 102).
  vm_compute. reflexivity.
Qed.

Lemma demo_staked_reachable : reachable demo_staked.
Proof.
  apply (reachable_run demo_new _ demo_calls); [exact demo_new_reachable|].
  vm_compute. reflexivity.
Qed.

(** Decide a comparison of closed integers by evaluation. *)
Ltac zcomp := first [apply Z.leb_le | apply Z.ltb_lt]; vm_compute; reflexivity.

(* ------------------------------------------------------------------ *)
(** ** Instances of the theorems on concrete states *)

(** C1: three weeks after instantiation with 350 staked, one rate is
    frozen and the boundary jumps to week 4. *)
Lemma update_period_freezes_single_period_witness :
  update_period demo_staked (3 * 7 * SECONDS_IN_A_DAY) =
    Some (default demo_staked (update_period demo_staked (3 * 7 * SECONDS_IN_A_DAY))) /\
  current_period (default demo_staked (update_period demo_staked (3 * 7 * SECONDS_IN_A_DAY))) = 1.
Proof.
  assert (H : update_period demo_staked (3 * 7 * SECONDS_IN_A_DAY) =
    Some (default demo_staked (update_period demo_staked (3 * 7 * SECONDS_IN_A_DAY))))
    by (vm_compute; reflexivity).
  split; [exact H|].
  pose proof (update_period_freezes_single_period _ _ _ H) as Hc.
  assert (Hat : current_time_is_at_or_after (3 * 7 * SECONDS_IN_A_DAY)
                  (next_period demo_staked) = true) by (vm_compute; reflexivity).
  rewrite Hat in Hc. destruct Hc as (_ & _ & Hc & _). rewrite Hc.
  vm_compute. reflexivity.
Defined.

(** C2: a claim in period 0 of ID 1 (next period 1) is refused; in
    period 1 it pays for period 0. *)
Lemma update_id_claim_witness :
  update_id demo_staked 120 1 = None /\
  exists st' out st1 d,
    update_id demo_staked (7 * SECONDS_IN_A_DAY) 1 = Some (st', out) /\
    check_indexes demo_staked (7 * SECONDS_IN_A_DAY) 1 = Some st1 /\
    get_id (id_manager st1) 1 = Some d /\
    out = claim_total (stakes st1) (stakables st1) 0 (Id.amounts_staked d)
            (current_period st1)
            (Z.min (current_period st1 - Id.next_period d + 1) (max_claim_delay st1)).
Proof.
  split.
  - apply (proj1 (update_id_claim demo_staked 120 1)
             (default demo_staked (check_indexes demo_staked 120 1))
             (Id.mk [Dec.of_int 350] [0] 1 [None])).
    + vm_compute. reflexivity.
    + vm_compute. reflexivity.
    + zcomp.
  - set (r := update_id demo_staked (7 * SECONDS_IN_A_DAY) 1).
    assert (H : r = Some (fst (default (demo_staked, 0) r), snd (default (demo_staked, 0) r)))
      by (vm_compute; reflexivity).
    destruct (proj2 (update_id_claim demo_staked (7 * SECONDS_IN_A_DAY) 1) _ _ H)
      as (st1 & d & H1 & H2 & _ & _ & Hout & _).
    exists (fst (default (demo_staked, 0) r)), (snd (default (demo_staked, 0) r)), st1, d.
    split; [exact H|]. split; [exact H1|]. split; [exact H2|]. exact Hout.
Defined.

(** C3 (amended): asking for 500 out of 350 staked is the same call as
    unstaking everything. *)
Lemma start_unstake_excess_clamped_witness :
  start_unstake demo_staked 120 1 1 (Dec.of_int 500) false false =
    start_unstake demo_staked 120 1 1 (Dec.of_int 500) true false.
Proof.
  refine (proj1 (start_unstake_excess_clamped demo_staked 120 1 1 (Dec.of_int 500) false
           (default demo_staked (check_indexes demo_staked 120 1))
           (Id.mk [Dec.of_int 350] [0] 1 [None]) 0 (Dec.of_int 350) _ _ _ _ _)).
  - vm_compute. reflexivity.
  - vm_compute. reflexivity.
  - vm_compute. reflexivity.
  - vm_compute. reflexivity.
  - zcomp.
Defined.

(** C5 (amended): register, create, stake, roll a period and widen the
    interval: both counters move forward. *)
Lemma run_periods_monotone_witness :
  current_period demo_new <=
    current_period (default demo_new (run demo_new
      (demo_calls ++ [(7 * SECONDS_IN_A_DAY, UpdatePeriod); (7 * SECONDS_IN_A_DAY + 60, SetPeriodInterval 14)]))) /\
  next_period demo_new <=
    next_period (default demo_new (run demo_new
      (demo_calls ++ [(7 * SECONDS_IN_A_DAY, UpdatePeriod); (7 * SECONDS_IN_A_DAY + 60, SetPeriodInterval 14)]))).
Proof.
  assert (H : run demo_new
      (demo_calls ++ [(7 * SECONDS_IN_A_DAY, UpdatePeriod); (7 * SECONDS_IN_A_DAY + 60, SetPeriodInterval 14)]) =
    Some (default demo_new (run demo_new
      (demo_calls ++ [(7 * SECONDS_IN_A_DAY, UpdatePeriod); (7 * SECONDS_IN_A_DAY + 60, SetPeriodInterval 14)]))))
    by (vm_compute; reflexivity).
  destruct (run_periods_monotone _ _ _ H) as [H1 H2]. split; [exact H1|].
  apply H2; [zcomp|]. vm_compute. repeat constructor.
Defined.

(** C6 (amended): after the stake of 350 in period 0, a period roll at
    one week and a claim at two weeks (period 2) pay periods 0 and 1 on
    the position's 350. *)
Lemma stake_claim_includes_stake_period_witness :
  exists d', get_id (id_manager demo_staked) 1 = Some d' /\
  exists st1,
    check_indexes demo_claim_pre (14 * SECONDS_IN_A_DAY) 1 = Some st1 /\
    current_period demo_staked < current_period st1 /\
    current_period demo_staked ∈ claimable_periods (current_period st1)
                                   (current_period st1 - current_period demo_staked) /\
    snd (default (demo_staked, 0) (update_id demo_claim_pre (14 * SECONDS_IN_A_DAY) 1)) =
      claim_total (stakes st1) (stakables st1) 0 (Id.amounts_staked d') (current_period st1)
        (current_period st1 - current_period demo_staked).
Proof.
  assert (H : stake demo_registered 60 1 (Some (1, Dec.of_int 350)) 1 None = Some demo_staked)
    by (vm_compute; reflexivity).
  destruct (stake_claim_includes_stake_period _ _ _ _ _ _ _ H) as (d' & Hd & _ & Hc).
  exists d'. split; [exact Hd|].
  assert (Hr : run demo_staked (map (fun t => (t, UpdatePeriod)) [7 * SECONDS_IN_A_DAY]) =
                Some demo_claim_pre) by (vm_compute; reflexivity).
  assert (Hu : update_id demo_claim_pre (14 * SECONDS_IN_A_DAY) 1 =
    Some (fst (default (demo_staked, 0) (update_id demo_claim_pre (14 * SECONDS_IN_A_DAY) 1)),
          snd (default (demo_staked, 0) (update_id demo_claim_pre (14 * SECONDS_IN_A_DAY) 1))))
    by (vm_compute; reflexivity).
  pose proof (Hc _ _ _ _ _ Hr Hu) as (st1 & H1 & H2 & H3).
  exists st1. split; [exact H1|]. split; [exact H2|]. apply H3.
  assert (Hst : check_indexes demo_claim_pre (14 * SECONDS_IN_A_DAY) 1 =
                Some (default demo_staked (check_indexes demo_claim_pre (14 * SECONDS_IN_A_DAY) 1)))
    by (vm_compute; reflexivity).
  rewrite Hst in H1. apply (inj Some) in H1. rewrite <- H1. zcomp.
Defined.

(** C7: in the reachable state [demo_staked], a stake transfer of 100
    aborts. *)
Lemma start_unstake_transfer_aborts_witness :
  start_unstake demo_staked 120 1 1 (Dec.of_int 100) false true = None.
Proof. apply start_unstake_transfer_aborts. exact demo_staked_reachable. Defined.

(** C8: in [demo_staked] the IDs hold 350 of asset 1 in total, the
    unit's [staked_amount]. *)
Lemma staked_amounts_conserved_witness :
  total_staked 0 (id_manager demo_staked) = Dec.of_int 350.
Proof.
  rewrite (staked_amounts_conserved demo_staked demo_staked_reachable 0 1
             (default (StakableUnit.mk 0 0 0 0 (Lock.mk 0 0) ∅) (stakes demo_staked !! 1))).
  all: vm_compute; reflexivity.
Defined.

(** C10: ID 1 predates asset 1, so [set_lock] on asset 1 aborts. *)
Lemma set_lock_skips_reconciliation_witness :
  set_lock demo_late_asset 1 1000 1 = None.
Proof.
  apply (proj1 (set_lock_skips_reconciliation demo_late_asset 1) 1 1000
           (Id.mk [] [] 1 []) 0%nat).
  - vm_compute. reflexivity.
  - vm_compute. reflexivity.
  - simpl. lia.
Defined.

(* ================================================================== *)
(** * Further properties of the code *)

(** ** Unstake receipts are redeemed once *)

Lemma mint_non_fungible_address (rm rm' : ResourceManager.t) (n : Z) (d : nf_data) :
  mint_non_fungible rm n d = Some rm' ->
  ResourceManager.address rm' = ResourceManager.address rm.
Proof.
  unfold mint_non_fungible. case_decide; [|done].
  destruct (ResourceManager.data rm !! n); [done|]. intros; by simplify_eq.
Qed.

Ltac unstake_tac :=
  simpl; first
  [ split; [reflexivity|left; split; [reflexivity|reflexivity]]
  | split; [reflexivity|left; split; [reflexivity|apply delete_subseteq]]
  | match goal with
    | Hm : mint_non_fungible _ _ _ = Some _ |- _ =>
        split; [by apply mint_non_fungible_address in Hm|right; split; [reflexivity|]];
        rewrite (mint_non_fungible_insert _ _ _ _ Hm); by eexists
    end ].

Lemma exec_unstake_step (st st' : Staking) (now : Z) (c : call) :
  exec st now c = Some st' -> unstake_step st st'.
Proof.
  unfold unstake_step. intros H. destruct c; simpl in H.
  - unfold create_id in H. inv_opt; unstake_tac.
  - unfold stake in H. open_check H. inv_opt; unstake_tac.
  - unfold start_unstake in H. open_check H. inv_opt; unstake_tac.
  - unfold finish_unstake in H. inv_opt; unstake_tac.
  - unfold update_id in H. open_check H. inv_opt; unstake_tac.
  - apply update_period_frame in H as (? & ? & ? & -> & _). unstake_tac.
  - unfold lock_stake in H. open_check H. inv_opt; unstake_tac.
  - unfold set_lock in H. inv_opt; unstake_tac.
  - simplify_eq. unstake_tac.
  - unfold set_rewards in H. inv_opt; unstake_tac.
  - simplify_eq. unstake_tac.
  - simplify_eq. unstake_tac.
  - unfold remove_rewards in H. inv_opt; unstake_tac.
  - unfold add_stakable in H. inv_opt; unstake_tac.
  - unfold edit_stakable in H. inv_opt; unstake_tac.
  - simplify_eq. unstake_tac.
  - unfold set_unstake_delay in H. inv_opt; unstake_tac.
Qed.

Lemma receipts_below_step (st st' : Staking) :
  receipts_below st -> unstake_step st st' -> receipts_below st'.
Proof.
  unfold receipts_below, unstake_step. intros Hb (_ & [[Hc Hd]|[Hc [x Hd]]]) n Hn.
  - rewrite Hc. apply Hb. by apply (subseteq_dom _ _ Hd).
  - rewrite Hd, dom_insert_L in Hn.
    apply elem_of_union in Hn as [Hn%elem_of_singleton|Hn]; [lia|].
    specialize (Hb n Hn). lia.
Qed.

Lemma reachable_receipts_below (st : Staking) : reachable st -> receipts_below st.
Proof.
  induction 1 as [now pi rw dao mud a1 a2 a3 st H|st now c st' _ IH H].
  - unfold new in H. inv_opt. intros n. simpl. rewrite dom_empty_L. set_solver.
  - eapply receipts_below_step; [done|]. by eapply exec_unstake_step.
Qed.

Lemma receipt_spent_step (n : Z) (st st' : Staking) :
  receipt_spent n st -> unstake_step st st' -> receipt_spent n st'.
Proof.
  unfold receipt_spent, unstake_step. intros [Hn Hle] (_ & [[Hc Hd]|[Hc [x Hd]]]).
  - split; [|lia]. by eapply lookup_weaken_None.
  - split; [|lia]. rewrite Hd, lookup_insert_ne by lia. done.
Qed.

Lemma receipt_spent_run (n : Z) (st st' : Staking) (calls : list (Z * call)) :
  receipt_spent n st -> run st calls = Some st' -> receipt_spent n st'.
Proof.
  revert st. induction calls as [|[now c] calls IH]; intros st Hs H; simpl in H.
  - by simplify_eq.
  - destruct (exec st now c) as [st1|] eqn:He; simpl in H; [|done].
    apply (IH st1); [|done]. eapply receipt_spent_step; [done|]. by eapply exec_unstake_step.
Qed.

(** An unstake receipt redeems once: after [finish_unstake] burns receipt
    [n], whatever calls follow, a second [finish_unstake] of [n] fails. *)
Theorem finish_unstake_once (st st1 st2 : Staking) (now now' res res' n x : Z)
    (calls : list (Z * call)) :
  reachable st ->
  finish_unstake st now (res, n) = Some (st1, x) ->
  run st1 calls = Some st2 ->
  finish_unstake st2 now' (res', n) = None.
Proof.
  intros Hr Hf Hrun.
  assert (Hs : receipt_spent n st1).
  { unfold finish_unstake in Hf. inv_opt. unfold receipt_spent. simpl. split.
    - by rewrite lookup_delete_eq.
    - apply (reachable_receipts_below st Hr). apply elem_of_dom.
      unfold get_unstake in *. case_match; [by eexists|done]. }
  apply (receipt_spent_run n st1 st2 calls Hs) in Hrun as [Hn _].
  unfold finish_unstake, get_unstake. rewrite Hn. simpl.
  by destruct (res' =? _).
Qed.

Lemma get_id_dom (rm : ResourceManager.t) (n : Z) (d : Id.t) :
  get_id rm n = Some d -> n ∈ dom (ResourceManager.data rm).
Proof. intros H. apply get_id_data in H. by eapply elem_of_dom_2. Qed.

Ltac id_tac :=
  simpl in *; repeat match goal with
  | H : get_id _ _ = Some _ |- _ => apply get_id_dom in H; simpl in H
  end;
  split; [reflexivity|left; split; [reflexivity|]];
  rewrite ?dom_insert_L in *; set_solver.

Lemma exec_id_step (st st' : Staking) (now : Z) (c : call) :
  exec st now c = Some st' -> id_step c st st'.
Proof.
  unfold id_step. intros H. destruct c; simpl in H.
  - unfold create_id in H.
    destruct (assert_true (u64_ok _)) as [[]|]; simpl in H; [|done].
    destruct (assert_true (i64_ok _)) as [[]|]; simpl in H; [|done].
    destruct (mint_non_fungible _ _ _) as [im|] eqn:Hm; simpl in H; [|done].
    simplify_eq. simpl. split.
    + unfold mint_non_fungible in Hm. case_decide; [|done]. case_match; [done|]. by simplify_eq.
    + right. split; [done|]. split; [done|].
      by rewrite (mint_non_fungible_insert _ _ _ _ Hm), dom_insert_L.
  - unfold stake in H. open_check H. inv_opt; id_tac.
  - unfold start_unstake in H. open_check H. inv_opt; id_tac.
  - unfold finish_unstake in H. inv_opt; id_tac.
  - unfold update_id in H. open_check H. inv_opt; id_tac.
  - apply update_period_frame in H as (? & ? & ? & -> & _). id_tac.
  - unfold lock_stake in H. open_check H. inv_opt; id_tac.
  - unfold set_lock in H. inv_opt; id_tac.
  - simplify_eq. id_tac.
  - unfold set_rewards in H. inv_opt; id_tac.
  - simplify_eq. id_tac.
  - simplify_eq. id_tac.
  - unfold remove_rewards in H. inv_opt; id_tac.
  - unfold add_stakable in H. inv_opt; id_tac.
  - unfold edit_stakable in H. inv_opt; id_tac.
  - simplify_eq. id_tac.
  - unfold set_unstake_delay in H. inv_opt; id_tac.
Qed.

Lemma reachable_ids_below (st : Staking) : reachable st -> ids_below st.
Proof.
  induction 1 as [now pi rw dao mud a1 a2 a3 st H|st now c st' _ [Ht Hb] H].
  - unfold new in H. inv_opt. split; [done|]. intros n. simpl. rewrite dom_empty_L. set_solver.
  - destruct (exec_id_step _ _ _ _ H) as (Ht' & [[Hc Hd]|(_ & Hc & Hd)]);
      (split; [congruence|]); intros n Hn.
    + rewrite Hc. apply Hb. by rewrite <- Hd.
    + rewrite Hd in Hn. apply elem_of_union in Hn as [Hn%elem_of_singleton|Hn]; [lia|].
      specialize (Hb n Hn). lia.
Qed.

(** On a reachable state, [create_id] succeeds unless incrementing the
    [u64] ID counter or the [i64] period overflows.  It mints the number
    after the counter (which no ID holds yet) and gives the new ID zero
    vectors sized to the registry and [next_period] one past the current
    period. *)
Theorem create_id_fresh (st : Staking) :
  reachable st ->
  u64_ok (id_counter st + 1) = true ->
  i64_ok (current_period st + 1) = true ->
  let c := id_counter st + 1 in
  let n := length (stakables st) in
  ResourceManager.data (id_manager st) !! c = None /\
  exists im, create_id st = Some (set_ids c im st, c) /\
    ResourceManager.data im =
      <[c := NfId (Id.mk (replicate n 0) (replicate n 0) (current_period st + 1)
                     (replicate n None))]> (ResourceManager.data (id_manager st)).
Proof.
  intros Hr Hu Hp c n. destruct (reachable_ids_below st Hr) as [Ht Hb].
  assert (Hc : ResourceManager.data (id_manager st) !! c = None).
  { apply not_elem_of_dom. intros Hin. specialize (Hb c Hin). unfold c in Hb. lia. }
  split; [done|].
  unfold create_id, mint_non_fungible. fold c n. change (u64_ok c = true) in Hu.
  rewrite Hu, Hp. simpl.
  rewrite Ht, decide_True by done. rewrite Hc. simpl. by eexists.
Qed.

Lemma exec_transfer_empty (st st' : Staking) (now : Z) (c : call) :
  reachable st -> transfer_empty st -> exec st now c = Some st' -> transfer_empty st'.
Proof.
  unfold transfer_empty. intros Hr He H. pose proof (reachable_transfer_type st Hr) as Ht.
  destruct c; simpl in H.
  - unfold create_id in H. inv_opt; done.
  - unfold stake in H. open_check H. inv_opt; simpl in *; rewrite ?He; done.
  - unfold start_unstake in H. open_check H. inv_opt; simpl in *; try done.
    all: match goal with
         | Hm : mint_non_fungible _ _ _ = Some _ |- _ => apply mint_non_fungible_type in Hm
         end; simpl in *; congruence.
  - unfold finish_unstake in H. inv_opt; done.
  - unfold update_id in H. open_check H. inv_opt; done.
  - apply update_period_frame in H as (? & ? & ? & -> & _). done.
  - unfold lock_stake in H. open_check H. inv_opt; done.
  - unfold set_lock in H. inv_opt; done.
  - by simplify_eq.
  - unfold set_rewards in H. inv_opt; done.
  - by simplify_eq.
  - by simplify_eq.
  - unfold remove_rewards in H. inv_opt; done.
  - unfold add_stakable in H. inv_opt; done.
  - unfold edit_stakable in H. inv_opt; done.
  - by simplify_eq.
  - unfold set_unstake_delay in H. inv_opt; done.
Qed.

Lemma reachable_transfer_empty (st : Staking) : reachable st -> transfer_empty st.
Proof.
  induction 1 as [now pi rw dao mud a1 a2 a3 st H|st now c st' Hr IH H].
  - unfold new in H. inv_opt. done.
  - by apply (exec_transfer_empty st st' now c).
Qed.

(** On a reachable state no stake transfer receipt exists, so [stake] with
    a transfer receipt always fails. *)
Theorem stake_with_transfer_receipt_aborts (st : Staking) (now address id : Z)
    (stake_bucket : option (Z * Z)) (receipt : Z * Z) :
  reachable st -> stake st now address stake_bucket id (Some receipt) = None.
Proof.
  intros Hr. pose proof (reachable_transfer_empty st Hr) as He. unfold transfer_empty in He.
  destruct (stake st now address stake_bucket id (Some receipt)) as [st'|] eqn:H; [|done].
  unfold stake in H. open_check H. inv_opt; unfold get_transfer in *; simpl in *;
    rewrite He, lookup_empty in *; done.
Qed.

Lemma update_id_same_period (st : Staking) (now id : Z) (d : Id.t) :
  get_id (id_manager st) id = Some d ->
  Id.next_period d = current_period st + 1 ->
  current_time_is_at_or_after now (next_period st) = false ->
  update_id st now id = None.
Proof.
  intros Hd Hn Hat. unfold update_id, check_indexes. rewrite Hat. simpl. rewrite Hd. simpl.
  assert (Hw : forall st1 d1, Id.next_period d1 = current_period st + 1 ->
            current_period st1 = current_period st ->
            assert_true (0 <? claimed_weeks (current_period st1) (Id.next_period d1)
                                            (max_claim_delay st1)) = None).
  { intros st1 d1 H1 H2. rewrite H1, H2. unfold claimed_weeks.
    replace (current_period st - (current_period st + 1) + 1) with 0 by lia.
    destruct (Z.ltb_spec (max_claim_delay st1) 0).
    - by rewrite (proj2 (Z.ltb_ge 0 _)) by lia.
    - done. }
  case_decide; [|case_decide]; simpl; try done.
  - rewrite Hd. simpl. by rewrite Hw.
  - rewrite get_id_put_data. simpl. by rewrite Hw.
Qed.

(** After an [update_id] or a [stake] on an ID, a further [update_id] of
    that ID fails until the period boundary is reached. *)
Theorem claim_blocked_until_period_roll (st st1 : Staking) (now now' id : Z) :
  ((exists r, update_id st now id = Some (st1, r)) \/
   (exists address bucket receipt, stake st now address bucket id receipt = Some st1)) ->
  current_time_is_at_or_after now' (next_period st1) = false ->
  update_id st1 now' id = None.
Proof.
  intros [[r H]|(a & b & t & H)] Hat.
  - unfold update_id in H. open_check H. inv_opt.
    eapply update_id_same_period; [simpl; by rewrite get_id_put_data|simpl; lia|done].
  - unfold stake in H. open_check H. inv_opt;
      (eapply update_id_same_period; [simpl; by rewrite get_id_put_data|simpl; lia|done]).
Qed.

Lemma locked_until_reconciled (d : Id.t) (n k : nat) (v : option Z) :
  Id.locked_until d !! k = Some v -> Id.locked_until (reconciled d n) !! k = Some v.
Proof. intros H. unfold reconciled. simpl. by apply lookup_app_l_Some. Qed.

Lemma locked_position_blocks (st : Staking) (now id address : Z) (k : nat) (d : Id.t) (t : Z) :
  get_id (id_manager st) id = Some d ->
  position address (stakables st) = Some k ->
  Id.locked_until d !! k = Some (Some t) ->
  current_time_is_at_or_after now t = false ->
  (forall x all tr, start_unstake st now id address x all tr = None) /\
  lock_stake st now address id = None.
Proof.
  intros Hd Hk Hl Hat. split; [intros x all tr|].
  - destruct (start_unstake st now id address x all tr) as [r|] eqn:H; [|done].
    unfold start_unstake in H. open_check H.
    match goal with H1 : get_id (id_manager st) id = Some _ |- _ => rewrite Hd in H1 end.
    simplify_eq. inv_opt; simpl in *; rewrite ?get_id_put_data in *; simplify_option_eq;
      match goal with H1 : (Id.locked_until _ ++ _) !! _ = Some _ |- _ =>
        rewrite (lookup_app_l_Some _ _ _ _ Hl) in H1 end; simplify_eq;
      match goal with H1 : assert_true (current_time_is_at_or_after now _) = Some _ |- _ =>
        rewrite Hat in H1; discriminate end.
  - destruct (lock_stake st now address id) as [r|] eqn:H; [|done].
    unfold lock_stake in H. open_check H.
    match goal with H1 : get_id (id_manager st) id = Some _ |- _ => rewrite Hd in H1 end.
    simplify_eq. inv_opt; simpl in *; rewrite ?get_id_put_data in *; simplify_option_eq;
      match goal with H1 : (Id.locked_until _ ++ _) !! _ = Some _ |- _ =>
        rewrite (lookup_app_l_Some _ _ _ _ Hl) in H1 end; simplify_eq;
      match goal with H1 : assert_true (current_time_is_at_or_after now _) = Some _ |- _ =>
        rewrite Hat in H1; discriminate end.
Qed.

(** After [lock_stake], until the lock's duration has passed, neither
    [start_unstake] nor another [lock_stake] on that position succeeds. *)
Theorem lock_stake_blocks_unstake (st st1 : Staking) (now now' address id pay : Z)
    (su : StakableUnit.t) :
  lock_stake st now address id = Some (st1, pay) ->
  stakes st1 !! address = Some su ->
  current_time_is_at_or_after now'
    (now + Lock.duration (StakableUnit.lock su) * SECONDS_IN_A_DAY) = false ->
  (forall x all tr, start_unstake st1 now' id address x all tr = None) /\
  lock_stake st1 now' address id = None.
Proof.
  intros H Hs Hat. unfold lock_stake in H. open_check H. inv_opt.
  all: eapply locked_position_blocks;
    [simpl; by rewrite get_id_put_data|simpl; eassumption| |].
  all: try (simpl; apply list_lookup_insert_eq; apply lookup_lt_is_Some_1; eexists; eassumption).
  all: match goal with
       | Ha : add_days _ _ = Some _ |- _ => unfold add_days, i64_chk in Ha; inv_opt; exact Hat
       end.
Qed.

Lemma ids_aligned_insert (m : gmap Z nf_data) (n : Z) (d : Id.t) :
  ids_aligned m -> length (Id.amounts_staked d) = length (Id.locked_until d) ->
  ids_aligned (<[n := NfId d]> m).
Proof.
  intros Hm Hd n' d'. destruct (decide (n' = n)) as [->|].
  - rewrite lookup_insert_eq. intros; by simplify_eq.
  - rewrite lookup_insert_ne by done. apply Hm.
Qed.

Lemma ids_aligned_get (rm : ResourceManager.t) (n : Z) (d : Id.t) :
  ids_aligned (ResourceManager.data rm) -> get_id rm n = Some d ->
  length (Id.amounts_staked d) = length (Id.locked_until d).
Proof. intros Hm Hd. apply get_id_data in Hd. by apply (Hm n). Qed.

Ltac aligned_tac Ha :=
  simpl in *; rewrite ?get_id_put_data in *; simplify_eq;
  repeat match goal with
  | Hm : mint_non_fungible _ _ _ = Some _ |- _ =>
      rewrite (mint_non_fungible_insert _ _ _ _ Hm); clear Hm
  end;
  repeat (apply ids_aligned_insert; [|simpl]); try exact Ha;
  unfold reconciled; simpl;
  rewrite ?length_insert, ?length_app, ?length_replicate;
  repeat match goal with
  | Hg : get_id (id_manager _) _ = Some _ |- _ =>
      apply (ids_aligned_get _ _ _ Ha) in Hg; simpl in Hg
  end; lia.

Lemma exec_ids_aligned (st st' : Staking) (now : Z) (c : call) :
  ids_aligned (ResourceManager.data (id_manager st)) -> exec st now c = Some st' ->
  ids_aligned (ResourceManager.data (id_manager st')).
Proof.
  intros Ha H. destruct c; simpl in H.
  - unfold create_id in H. inv_opt. aligned_tac Ha.
  - unfold stake in H. open_check H. inv_opt; aligned_tac Ha.
  - unfold start_unstake in H. open_check H. inv_opt; aligned_tac Ha.
  - unfold finish_unstake in H. inv_opt; aligned_tac Ha.
  - unfold update_id in H. open_check H. inv_opt; aligned_tac Ha.
  - apply update_period_frame in H as (? & ? & ? & -> & _). aligned_tac Ha.
  - unfold lock_stake in H. open_check H. inv_opt; aligned_tac Ha.
  - unfold set_lock in H. inv_opt; aligned_tac Ha.
  - simplify_eq. aligned_tac Ha.
  - unfold set_rewards in H. inv_opt; aligned_tac Ha.
  - simplify_eq. aligned_tac Ha.
  - simplify_eq. aligned_tac Ha.
  - unfold remove_rewards in H. inv_opt; aligned_tac Ha.
  - unfold add_stakable in H. inv_opt; aligned_tac Ha.
  - unfold edit_stakable in H. inv_opt; aligned_tac Ha.
  - simplify_eq. aligned_tac Ha.
  - unfold set_unstake_delay in H. inv_opt; aligned_tac Ha.
Qed.

(** In every reachable state each ID has as many staked amounts as lock
    times, and no more of them than registered assets. *)
Theorem id_vectors_aligned (st : Staking) :
  reachable st ->
  forall n d, ResourceManager.data (id_manager st) !! n = Some (NfId d) ->
  length (Id.amounts_staked d) = length (Id.locked_until d) /\
  (length (Id.amounts_staked d) <= length (stakables st))%nat.
Proof.
  intros Hr. assert (Ha : ids_aligned (ResourceManager.data (id_manager st))).
  { induction Hr as [now pi rw dao mud a1 a2 a3 st H|st now c st' _ IH H].
    - unfold new in H. inv_opt. intros n d. simpl. by rewrite lookup_empty.
    - by apply (exec_ids_aligned st st' now c). }
  intros n d Hd. split; [by apply (Ha n)|]. by apply (inv_len _ (inv_reachable st Hr) n).
Qed.

Ltac const_tac := simpl; split; [done|split; [done|left; done]].

Lemma exec_constants (st st' : Staking) (now : Z) (c : call) :
  exec st now c = Some st' ->
  max_unstaking_delay st' = max_unstaking_delay st /\
  dao_controlled st' = dao_controlled st /\
  (unstake_delay st' = unstake_delay st \/
   exists v, c = SetUnstakeDelay v /\ unstake_delay st' = v /\ v <= max_unstaking_delay st).
Proof.
  intros H. destruct c; simpl in H.
  - unfold create_id in H. inv_opt. const_tac.
  - unfold stake in H. open_check H. inv_opt; const_tac.
  - unfold start_unstake in H. open_check H. inv_opt; const_tac.
  - unfold finish_unstake in H. inv_opt; const_tac.
  - unfold update_id in H. open_check H. inv_opt; const_tac.
  - apply update_period_frame in H as (? & ? & ? & -> & _). const_tac.
  - unfold lock_stake in H. open_check H. inv_opt; const_tac.
  - unfold set_lock in H. inv_opt; const_tac.
  - simplify_eq. const_tac.
  - unfold set_rewards in H. inv_opt; const_tac.
  - simplify_eq. const_tac.
  - simplify_eq. const_tac.
  - unfold remove_rewards in H. inv_opt; const_tac.
  - unfold add_stakable in H. inv_opt; const_tac.
  - unfold edit_stakable in H. inv_opt; const_tac.
  - simplify_eq. const_tac.
  - unfold set_unstake_delay, assert_true in H. inv_opt. simpl. split; [done|split; [done|]].
    right. eexists. split; [reflexivity|split; [reflexivity|by apply Z.leb_le]].
Qed.

(** In every reachable state the unstaking delay is the initial 7 days or
    at most [max_unstaking_delay]. *)
Theorem unstake_delay_bounded (st : Staking) :
  reachable st -> unstake_delay st = 7 \/ unstake_delay st <= max_unstaking_delay st.
Proof.
  induction 1 as [now pi rw dao mud a1 a2 a3 st H|st now c st' _ IH H].
  - unfold new in H. inv_opt. by left.
  - destruct (exec_constants _ _ _ _ H) as (Hm & _ & [Hu|(v & _ & Hu & Hv)]);
      rewrite Hm, Hu; [done|by right].
Qed.

(** In a component instantiated without DAO control, [set_lock] fails
    after any sequence of calls. *)
Theorem set_lock_never_without_dao (now pi rw mud a1 a2 a3 : Z) (st0 st : Staking)
    (calls : list (Z * call)) :
  new now pi rw false mud a1 a2 a3 = Some st0 ->
  run st0 calls = Some st ->
  forall address lock_until id, set_lock st address lock_until id = None.
Proof.
  intros Hn Hr. assert (Hd : dao_controlled st = false).
  { assert (H0 : dao_controlled st0 = false) by (unfold new in Hn; inv_opt; done).
    clear Hn. revert st0 Hr H0. induction calls as [|[t c] calls IH]; intros st0 Hr H0;
      simpl in Hr; [by simplify_eq|].
    destruct (exec st0 t c) as [st1|] eqn:He; simpl in Hr; [|done].
    apply (IH st1 Hr). destruct (exec_constants _ _ _ _ He) as (_ & -> & _). done. }
  intros a l i. unfold set_lock. by rewrite Hd.
Qed.

(** A successful [update_period] at or after the boundary with a positive
    interval moves to the next period and sets a boundary after [now], at
    most one interval later; a minute-aligned old boundary makes the new
    one not yet reached at [now]. *)
Theorem update_period_next_boundary (st st' : Staking) (now : Z) :
  update_period st now = Some st' ->
  0 < period_interval st -> next_period st <= now ->
  current_period st' = current_period st + 1 /\
  now < next_period st' <= now + period_interval st * SECONDS_IN_A_DAY /\
  (next_period st mod 60 = 0 -> current_time_is_at_or_after now (next_period st') = false).
Proof.
  intros H HI Hle. unfold update_period in H.
  destruct (extra_periods st now) as [e|] eqn:He; simpl in H; [|done].
  rewrite (extra_periods_floor st now e He Hle HI) in H.
  assert (Hat : current_time_is_at_or_after now (next_period st) = true).
  { apply Z.leb_le. pose proof (Z.mul_div_le (next_period st) 60). lia. }
  rewrite Hat in H. unfold add_days, i64_chk in H. inv_opt. simpl. split; [done|].
  unfold SECONDS_IN_A_DAY in *.
  set (I := period_interval st) in *. set (np := next_period st) in *.
  assert (HP : 0 < I * 86400) by lia.
  pose proof (Z.mul_div_le (now - np) (I * 86400) HP).
  pose proof (Z.mul_succ_div_gt (now - np) (I * 86400) HP).
  set (q := (now - np) / (I * 86400)) in *.
  assert (Hb : now < np + (1 + q) * I * 86400 <= now + I * 86400) by nia.
  split; [exact Hb|]. intros Hm. unfold current_time_is_at_or_after. apply Z.leb_gt.
  assert (Hm' : (np + (1 + q) * I * 86400) mod 60 = 0).
  { replace ((1 + q) * I * 86400) with (((1 + q) * I * 1440) * 60) by ring.
    by rewrite Z.mod_add by lia. }
  rewrite (Z.div_mod (np + (1 + q) * I * 86400) 60) in Hb by lia.
  rewrite Hm' in Hb. lia.
Qed.

Lemma rates_kept_refl (s : gmap Z StakableUnit.t) : rates_kept s s.
Proof. intros a su H. by exists su. Qed.

Lemma rates_kept_trans (s1 s2 s3 : gmap Z StakableUnit.t) :
  rates_kept s1 s2 -> rates_kept s2 s3 -> rates_kept s1 s3.
Proof.
  intros H12 H23 a su H. destruct (H12 a su H) as (su2 & H2 & Hs2).
  destruct (H23 a su2 H2) as (su3 & H3 & Hs3). exists su3. split; [done|]. by trans (StakableUnit.rewards su2).
Qed.

Lemma rates_insert_same (cp : Z) (s0 s : gmap Z StakableUnit.t) (a : Z)
    (su su' : StakableUnit.t) :
  rates_ok cp s /\ rates_kept s0 s -> s !! a = Some su ->
  StakableUnit.rewards su' = StakableUnit.rewards su ->
  rates_ok cp (<[a := su']> s) /\ rates_kept s0 (<[a := su']> s).
Proof.
  intros [Hok Hk] Ha Hr. split.
  - intros b sb Hb. destruct (decide (b = a)) as [->|].
    + rewrite lookup_insert_eq in Hb. simplify_eq. rewrite Hr. by apply (Hok a).
    + rewrite lookup_insert_ne in Hb by done. by apply (Hok b).
  - apply (rates_kept_trans _ s); [done|]. intros b sb Hb.
    destruct (decide (b = a)) as [->|].
    + rewrite lookup_insert_eq. rewrite Ha in Hb. simplify_eq. exists su'. by rewrite Hr.
    + rewrite lookup_insert_ne by done. by exists sb.
Qed.

Lemma rates_freeze (cp : Z) (l : list Z) (s s' : gmap Z StakableUnit.t) :
  freeze_rates cp l s = Some s' -> rates_ok cp s ->
  rates_ok (cp + 1) s' /\ rates_kept s s'.
Proof.
  intros Hf Hok. destruct (freeze_rates_spec _ _ _ _ Hf) as [_ Hs]. split.
  - intros a su Ha p Hp. rewrite Hs in Ha. case_decide.
    + destruct (s !! a) as [su0|] eqn:E; simpl in Ha; [|done]. simplify_eq.
      unfold freeze_unit, SuUpd.with_rewards in Hp. simpl in Hp.
      rewrite dom_insert_L in Hp. apply elem_of_union in Hp as [->%elem_of_singleton|Hp]; [lia|].
      specialize (Hok a su0 E p Hp). lia.
    + specialize (Hok a su Ha p Hp). lia.
  - intros a su Ha. rewrite Hs. case_decide; rewrite Ha; simpl; [|by exists su].
    eexists. split; [reflexivity|]. unfold freeze_unit, SuUpd.with_rewards. simpl.
    apply insert_subseteq. apply not_elem_of_dom. intros Hp. specialize (Hok a su Ha cp Hp). lia.
Qed.

Lemma rates_update_period (st st' : Staking) (now : Z) :
  update_period st now = Some st' -> rates_ok (current_period st) (stakes st) ->
  rates_ok (current_period st') (stakes st') /\ rates_kept (stakes st) (stakes st').
Proof.
  intros H Hok. unfold update_period in H.
  destruct (extra_periods st now); simpl in H; [|done].
  destruct (current_time_is_at_or_after _ _); [|simplify_eq; split; [done|apply rates_kept_refl]].
  destruct (freeze_rates _ _ _) as [s|] eqn:Hf; simpl in H; [|done].
  unfold add_days, i64_chk in H. inv_opt. simpl. by apply (rates_freeze _ (stakables st)).
Qed.

Lemma rates_check (st st1 : Staking) (now id : Z) :
  check_indexes st now id = Some st1 -> rates_ok (current_period st) (stakes st) ->
  rates_ok (current_period st1) (stakes st1) /\ rates_kept (stakes st) (stakes st1).
Proof.
  intros H Hok. unfold check_indexes in H.
  destruct (if current_time_is_at_or_after now (next_period st)
            then update_period st now else Some st) as [stu|] eqn:Hu; simpl in H; [|done].
  assert (rates_ok (current_period stu) (stakes stu) /\ rates_kept (stakes st) (stakes stu)) as [Ho Hk].
  { destruct (current_time_is_at_or_after _ _).
    - by apply (rates_update_period st stu now).
    - simplify_eq. split; [done|apply rates_kept_refl]. }
  inv_opt; done.
Qed.

Lemma rates_insert_new (cp : Z) (s : gmap Z StakableUnit.t) (a : Z) (su : StakableUnit.t) :
  rates_ok cp s -> s !! a = None -> StakableUnit.rewards su = ∅ ->
  rates_ok cp (<[a := su]> s) /\ rates_kept s (<[a := su]> s).
Proof.
  intros Hok Ha Hr. split.
  - intros b sb Hb p Hp. destruct (decide (b = a)) as [->|].
    + rewrite lookup_insert_eq in Hb. simplify_eq. rewrite Hr, dom_empty_L in Hp. set_solver.
    + rewrite lookup_insert_ne in Hb by done. by apply (Hok b sb Hb).
  - intros b sb Hb. exists sb. split; [|done].
    rewrite lookup_insert_ne; [done|]. intros ->. congruence.
Qed.

Ltac rates_tac Ho Hk :=
  simpl in *;
  repeat (eapply rates_insert_same; [|lookup_side|reflexivity]);
  first [split; [exact Ho|exact Hk] | split; [exact Ho|apply rates_kept_refl]].

Lemma exec_rates (st st' : Staking) (now : Z) (c : call) :
  rates_ok (current_period st) (stakes st) -> exec st now c = Some st' ->
  rates_ok (current_period st') (stakes st') /\ rates_kept (stakes st) (stakes st').
Proof.
  intros Hok H. pose proof (rates_kept_refl (stakes st)) as Hk.
  destruct c; simpl in H.
  1, 4, 8, 9, 10, 11, 12, 13, 15, 16, 17:
    unfold create_id, finish_unstake, set_lock, set_period_interval, set_rewards,
      set_max_claim_delay, fill_rewards, remove_rewards, edit_stakable,
      set_next_period_to_now, set_unstake_delay in H; inv_opt; rates_tac Hok Hk.
  - unfold stake in H. destruct (check_indexes st now id) as [st1|] eqn:Hc; simpl in H; [|done].
    destruct (rates_check _ _ _ _ Hc Hok) as [Ho Hk1]. inv_opt; rates_tac Ho Hk1.
  - unfold start_unstake in H.
    destruct (check_indexes st now id) as [st1|] eqn:Hc; simpl in H; [|done].
    destruct (rates_check _ _ _ _ Hc Hok) as [Ho Hk1]. inv_opt; rates_tac Ho Hk1.
  - unfold update_id in H. destruct (check_indexes st now id) as [st1|] eqn:Hc; simpl in H; [|done].
    destruct (rates_check _ _ _ _ Hc Hok) as [Ho Hk1]. inv_opt; rates_tac Ho Hk1.
  - by apply (rates_update_period st st' now).
  - unfold lock_stake in H. destruct (check_indexes st now id) as [st1|] eqn:Hc; simpl in H; [|done].
    destruct (rates_check _ _ _ _ Hc Hok) as [Ho Hk1]. inv_opt; rates_tac Ho Hk1.
  - unfold add_stakable in H. inv_opt. simpl. by apply rates_insert_new.
Qed.

Lemma reachable_rates_ok (st : Staking) : reachable st -> rates_ok (current_period st) (stakes st).
Proof.
  induction 1 as [now pi rw dao mud a1 a2 a3 st H|st now c st' _ IH H].
  - unfold new in H. inv_opt. intros a su. simpl. by rewrite lookup_empty.
  - by apply (exec_rates st st' now c).
Qed.

(** A rate frozen for a period stays in the unit's [rewards] with the same
    value after any sequence of calls from a reachable state. *)
Theorem frozen_rates_permanent (st st' : Staking) (calls : list (Z * call)) :
  reachable st -> run st calls = Some st' ->
  forall a su p r, stakes st !! a = Some su -> StakableUnit.rewards su !! p = Some r ->
  exists su', stakes st' !! a = Some su' /\ StakableUnit.rewards su' !! p = Some r.
Proof.
  intros Hr Hrun. assert (Hk : rates_kept (stakes st) (stakes st')).
  { revert st Hr Hrun. induction calls as [|[now c] calls IH]; intros st Hr Hrun;
      simpl in Hrun; [simplify_eq; apply rates_kept_refl|].
    destruct (exec st now c) as [st1|] eqn:He; simpl in Hrun; [|done].
    apply (rates_kept_trans _ (stakes st1)).
    - by apply (exec_rates st st1 now c); [apply reachable_rates_ok|].
    - apply IH; [by apply (reachable_step st now c st1)|done]. }
  intros a su p r Ha Hp. destruct (Hk a su Ha) as (su' & Ha' & Hsub).
  exists su'. split; [done|]. by eapply lookup_weaken.
Qed.

Lemma exec_registry_prefix (st st' : Staking) (now : Z) (c : call) :
  exec st now c = Some st' -> stakables st `prefix_of` stakables st'.
Proof.
  intros H. destruct c; simpl in H.
  all: unfold create_id, stake, start_unstake, finish_unstake, update_id, lock_stake, set_lock,
         set_period_interval, set_rewards, set_max_claim_delay, fill_rewards, remove_rewards,
         add_stakable, edit_stakable, set_next_period_to_now, set_unstake_delay in H.
  all: repeat match type of H with
    | context [check_indexes ?s ?t ?i] => open_check H
    end.
  6: apply update_period_frame in H as (? & ? & ? & -> & _).
  all: inv_opt; simpl; first [reflexivity | by apply prefix_app_r].
Qed.

(** The asset registry only grows at its end: the asset at an index keeps
    that index after any sequence of calls. *)
Theorem registry_indices_stable (st st' : Staking) (calls : list (Z * call)) :
  run st calls = Some st' ->
  forall i a, stakables st !! i = Some a -> stakables st' !! i = Some a.
Proof.
  intros Hrun. assert (Hp : stakables st `prefix_of` stakables st').
  { revert st Hrun. induction calls as [|[now c] calls IH]; intros st Hrun;
      simpl in Hrun; [by simplify_eq|].
    destruct (exec st now c) as [st1|] eqn:He; simpl in Hrun; [|done].
    trans (stakables st1); [by apply (exec_registry_prefix st st1 now c)|by apply IH]. }
  intros i a Hi. by apply (prefix_lookup_Some (stakables st)).
Qed.

Lemma update_period_vaults (st st' : Staking) (now : Z) :
  update_period st now = Some st' ->
  forall a, StakableUnit.vault <$> stakes st' !! a = StakableUnit.vault <$> stakes st !! a.
Proof.
  intros H a. unfold update_period in H.
  destruct (extra_periods st now); simpl in H; [|done].
  destruct (current_time_is_at_or_after _ _); [|by simplify_eq].
  destruct (freeze_rates _ _ _) as [s|] eqn:Hf; simpl in H; [|done].
  unfold add_days, i64_chk in H. inv_opt. simpl.
  destruct (freeze_rates_spec _ _ _ _ Hf) as [_ Hs]. rewrite Hs.
  case_decide; [|done]. by destruct (stakes st !! a) as [[]|].
Qed.

Lemma check_indexes_vaults (st st1 : Staking) (now id : Z) :
  check_indexes st now id = Some st1 ->
  forall a, StakableUnit.vault <$> stakes st1 !! a = StakableUnit.vault <$> stakes st !! a.
Proof.
  intros H a. unfold check_indexes in H.
  destruct (if current_time_is_at_or_after now (next_period st)
            then update_period st now else Some st) as [stu|] eqn:Hu; simpl in H; [|done].
  assert (StakableUnit.vault <$> stakes stu !! a = StakableUnit.vault <$> stakes st !! a) as Hv.
  { destruct (current_time_is_at_or_after _ _); [by eapply update_period_vaults|by simplify_eq]. }
  inv_opt; done.
Qed.

(** A successful [stake] without transfer receipt adds the deposit to the
    ID's amount at the asset's index, to the unit's [staked_amount] and to
    its vault, leaves the reward vault alone and sets the ID's
    [next_period] one past the current period. *)
Theorem stake_accounting (st st' : Staking) (now address amount id : Z) (k : nat)
    (d : Id.t) (su : StakableUnit.t) :
  stake st now address (Some (address, amount)) id None = Some st' ->
  get_id (id_manager st) id = Some d ->
  position address (stakables st) = Some k ->
  stakes st !! address = Some su ->
  exists d' su',
    get_id (id_manager st') id = Some d' /\ stakes st' !! address = Some su' /\
    staked_at k d' = staked_at k d + amount /\
    StakableUnit.staked_amount su' = StakableUnit.staked_amount su + amount /\
    StakableUnit.vault su' = StakableUnit.vault su + amount /\
    reward_vault st' = reward_vault st /\
    Id.next_period d' = current_period st' + 1.
Proof.
  intros H Hd Hk Hsu. unfold stake in H.
  destruct (check_indexes st now id) as [st1|] eqn:Hc; simpl in H; [|done].
  pose proof (check_indexes_vaults _ _ _ _ Hc address) as Hv.
  destruct (check_indexes_frame _ _ _ _ Hc)
    as (? & d0 & (cp & np & s & -> & _ & _ & Hs) & Hd0 & _ & ->).
  rewrite Hd in Hd0. simplify_eq. specialize (Hs address).
  simpl in *. rewrite Hsu in Hs, Hv. inv_opt. rewrite get_id_put_data in *. simplify_eq.
  rewrite lookup_insert_eq in *. simplify_eq.
  eexists _, _. split; [reflexivity|]. split; [reflexivity|].
  simpl. split; [|split; [lia|split; [lia|split; [done|done]]]].
  unfold staked_at. simpl. rewrite list_lookup_insert_eq
    by (apply lookup_lt_is_Some_1; eexists; eassumption).
  pose proof (staked_at_reconciled k (length (stakables st)) d0) as Hr. unfold staked_at in Hr.
  match goal with Ho : Id.amounts_staked (reconciled _ _) !! _ = Some _ |- _ => rewrite Ho in Hr end.
  simpl in *. lia.
Qed.

(** A successful [start_unstake] without transfer subtracts the receipt's
    amount from the ID's amount and the unit's [staked_amount], keeps the
    vaults, and mints receipt number counter+1 for the asset, redeemable
    [unstake_delay] days later. *)
Theorem start_unstake_accounting (st st' : Staking) (now id address x : Z) (all : bool)
    (n : Z) (k : nat) (d : Id.t) (su : StakableUnit.t) :
  start_unstake st now id address x all false = Some (st', n) ->
  get_id (id_manager st) id = Some d ->
  position address (stakables st) = Some k ->
  stakes st !! address = Some su ->
  exists d' su' r,
    get_id (id_manager st') id = Some d' /\ stakes st' !! address = Some su' /\
    get_unstake (unstake_receipt_manager st') n = Some r /\
    n = unstake_receipt_counter st + 1 /\
    UnstakeReceipt.address r = address /\
    staked_at k d' = staked_at k d - UnstakeReceipt.amount r /\
    StakableUnit.staked_amount su' = StakableUnit.staked_amount su - UnstakeReceipt.amount r /\
    StakableUnit.vault su' = StakableUnit.vault su /\
    reward_vault st' = reward_vault st /\
    UnstakeReceipt.redemption_time r = now + unstake_delay st * SECONDS_IN_A_DAY.
Proof.
  intros H Hd Hk Hsu. unfold start_unstake in H.
  destruct (check_indexes st now id) as [st1|] eqn:Hc; simpl in H; [|done].
  pose proof (check_indexes_vaults _ _ _ _ Hc address) as Hv.
  destruct (check_indexes_frame _ _ _ _ Hc)
    as (? & d0 & (cp & np & s & -> & _ & _ & Hs) & Hd0 & _ & ->).
  rewrite Hd in Hd0. simplify_eq. specialize (Hs address).
  unfold add_days, i64_chk in H. inv_opt; simpl in *; try rewrite Hsu in Hs; try rewrite Hsu in Hv;
    rewrite ?get_id_put_data in *; simplify_eq;
    match goal with Hm : mint_non_fungible _ _ _ = Some _ |- _ =>
      pose proof (mint_non_fungible_insert _ _ _ _ Hm) as Hi end;
    match goal with Ho : Id.amounts_staked (reconciled ?d ?m) !! ?i = Some _ |- _ =>
      pose proof (staked_at_reconciled i m d) as Hr; unfold staked_at in Hr;
      rewrite Ho in Hr; pose proof (lookup_lt_Some _ _ _ Ho) end;
    (eexists _, _, _; split; [reflexivity|]; split; [by rewrite lookup_insert_eq|];
     split; [unfold get_unstake; simpl; by rewrite Hi, lookup_insert_eq|];
     split; [reflexivity|]; split; [reflexivity|]; simpl;
     unfold staked_at; simpl; rewrite list_lookup_insert_eq by done; simpl in *; lia).
Qed.

Lemma start_unstake_receipt (st st1 : Staking) (now id address x : Z) (all : bool) (n : Z) :
  start_unstake st now id address x all false = Some (st1, n) ->
  n = unstake_receipt_counter st1 /\
  exists amount, ResourceManager.data (unstake_receipt_manager st1) !! n =
    Some (NfUnstakeReceipt (UnstakeReceipt.mk address amount
                              (now + unstake_delay st * SECONDS_IN_A_DAY))).
Proof.
  intros H. unfold start_unstake in H. open_check H. unfold add_days, i64_chk in H.
  inv_opt; simpl; (split; [reflexivity|]);
    match goal with Hm : mint_non_fungible _ _ _ = Some _ |- _ =>
      rewrite (mint_non_fungible_insert _ _ _ _ Hm), lookup_insert_eq; by eexists end.
Qed.

Lemma receipt_kept_run (n : Z) (r : UnstakeReceipt.t) (st st' : Staking)
    (calls : list (Z * call)) :
  receipt_kept n r st -> run st calls = Some st' -> receipt_kept n r st'.
Proof.
  revert st. induction calls as [|[now c] calls IH]; intros st Hs H; simpl in H.
  - by simplify_eq.
  - destruct (exec st now c) as [st1|] eqn:He; simpl in H; [|done].
    apply (IH st1); [|done]. clear IH H.
    destruct (exec_unstake_step _ _ _ _ He) as (_ & [[Hc Hd]|[Hc [x Hd]]]);
      destruct Hs as [Hn Hle]; (split; [|lia]).
    + destruct (ResourceManager.data (unstake_receipt_manager st1) !! n) as [v|] eqn:E;
        [left|by right].
      rewrite (lookup_weaken _ _ _ _ E Hd) in Hn. by destruct Hn as [Hn|Hn]; simplify_eq.
    + rewrite Hd, lookup_insert_ne by lia. done.
Qed.

(** An unstake receipt cannot be redeemed before its redemption time,
    whatever calls follow its minting. *)
Theorem unstake_receipt_matures (st st1 st2 : Staking) (now id address x : Z) (all : bool)
    (n : Z) (calls : list (Z * call)) (now' res : Z) :
  start_unstake st now id address x all false = Some (st1, n) ->
  run st1 calls = Some st2 ->
  current_time_is_at_or_after now' (now + unstake_delay st * SECONDS_IN_A_DAY) = false ->
  finish_unstake st2 now' (res, n) = None.
Proof.
  intros Hs Hrun Hat. destruct (start_unstake_receipt _ _ _ _ _ _ _ _ Hs) as (Hn & amt & Hd).
  assert (Hk : receipt_kept n (UnstakeReceipt.mk address amt
                                (now + unstake_delay st * SECONDS_IN_A_DAY)) st1)
    by (split; [by left|lia]).
  apply (receipt_kept_run _ _ _ _ _ Hk) in Hrun as [[Hd2|Hd2] _];
    unfold finish_unstake, get_unstake; rewrite Hd2; simpl;
    destruct (res =? _); simpl; [by rewrite Hat|done|done|done].
Qed.

Lemma ids_live_refl (m : gmap Z nf_data) : ids_live m m.
Proof. intros n d H. by exists d. Qed.

Lemma ids_live_insert (m m' : gmap Z nf_data) (k : Z) (d : Id.t) :
  ids_live m m' -> ids_live m (<[k := NfId d]> m').
Proof.
  intros H n d0 Hn. destruct (decide (n = k)) as [->|].
  - rewrite lookup_insert_eq. by exists d.
  - rewrite lookup_insert_ne by done. by apply (H n d0).
Qed.

Ltac live_tac :=
  simpl in *;
  repeat match goal with
  | Hm : mint_non_fungible _ _ _ = Some _ |- _ =>
      rewrite (mint_non_fungible_insert _ _ _ _ Hm); clear Hm
  end;
  repeat apply ids_live_insert; apply ids_live_refl.

Lemma exec_ids_live (st st' : Staking) (now : Z) (c : call) :
  exec st now c = Some st' ->
  ids_live (ResourceManager.data (id_manager st)) (ResourceManager.data (id_manager st')).
Proof.
  intros H. destruct c; simpl in H.
  - unfold create_id in H. inv_opt. live_tac.
  - unfold stake in H. open_check H. inv_opt; live_tac.
  - unfold start_unstake in H. open_check H. inv_opt; live_tac.
  - unfold finish_unstake in H. inv_opt; live_tac.
  - unfold update_id in H. open_check H. inv_opt; live_tac.
  - apply update_period_frame in H as (? & ? & ? & -> & _). live_tac.
  - unfold lock_stake in H. open_check H. inv_opt; live_tac.
  - unfold set_lock in H. inv_opt; live_tac.
  - simplify_eq. live_tac.
  - unfold set_rewards in H. inv_opt; live_tac.
  - simplify_eq. live_tac.
  - simplify_eq. live_tac.
  - unfold remove_rewards in H. inv_opt; live_tac.
  - unfold add_stakable in H. inv_opt; live_tac.
  - unfold edit_stakable in H. inv_opt; live_tac.
  - simplify_eq. live_tac.
  - unfold set_unstake_delay in H. inv_opt; live_tac.
Qed.

(** No call removes a staking ID: an ID present before a sequence of calls
    is present after it. *)
Theorem staking_ids_never_removed (st st' : Staking) (calls : list (Z * call)) (n : Z) :
  run st calls = Some st' ->
  is_Some (get_id (id_manager st) n) -> is_Some (get_id (id_manager st') n).
Proof.
  intros Hrun. unfold get_id.
  assert (Hl : ids_live (ResourceManager.data (id_manager st))
                        (ResourceManager.data (id_manager st'))).
  { revert st Hrun. induction calls as [|[now c] calls IH]; intros st Hrun;
      simpl in Hrun; [simplify_eq; apply ids_live_refl|].
    destruct (exec st now c) as [st1|] eqn:He; simpl in Hrun; [|done].
    intros m d Hm. destruct (exec_ids_live _ _ _ _ He m d Hm) as [d1 Hd1].
    by apply (IH st1 Hrun m d1). }
  destruct (ResourceManager.data (id_manager st) !! n) as [[d| |]|] eqn:E;
    intros [? Hs]; try done.
  destruct (Hl n d E) as [d' ->]. by eexists.
Qed.

(* ------------------------------------------------------------------ *)
(** ** Instances of the further properties *)

(** [demo_unstaked] is reachable. *)
Lemma demo_unstaked_reachable : reachable demo_unstaked.
Proof.
  apply (reachable_run demo_new _ demo_unstake_calls); [exact demo_new_reachable|].
  vm_compute. reflexivity.
Qed.

(** The next ID number of [demo_staked] is free. *)
Lemma create_id_fresh_witness :
  ResourceManager.data (id_manager demo_staked) !! (id_counter demo_staked + 1) = None.
Proof.
  refine (proj1 (create_id_fresh demo_staked demo_staked_reachable _ _));
    vm_compute; reflexivity.
Defined.

(** Receipt 1 of [demo_unstaked] redeems at t=120+7 days, and not a day later. *)
Lemma finish_unstake_once_witness :
  finish_unstake demo_unstaked (120 + 7 * SECONDS_IN_A_DAY) (102, 1) <> None /\
  finish_unstake
    (fst (default (demo_unstaked, 0)
            (finish_unstake demo_unstaked (120 + 7 * SECONDS_IN_A_DAY) (102, 1))))
    (120 + 8 * SECONDS_IN_A_DAY) (102, 1) = None.
Proof.
  split; [vm_compute; discriminate|].
  set (fin := fst (default (demo_unstaked, 0)
            (finish_unstake demo_unstaked (120 + 7 * SECONDS_IN_A_DAY) (102, 1)))).
  apply (finish_unstake_once demo_unstaked fin fin (120 + 7 * SECONDS_IN_A_DAY) _ 102 102 1
           (snd (default (demo_unstaked, 0)
                   (finish_unstake demo_unstaked (120 + 7 * SECONDS_IN_A_DAY) (102, 1)))) []).
  - exact demo_unstaked_reachable.
  - vm_compute. reflexivity.
  - reflexivity.
Defined.

(** [demo_staked] refuses a stake with transfer receipt 1. *)
Lemma stake_with_transfer_receipt_aborts_witness :
  stake demo_staked 120 1 None 1 (Some (101, 1)) = None.
Proof. apply stake_with_transfer_receipt_aborts. exact demo_staked_reachable. Defined.

(** After the stake of [demo_calls] at t=60, ID 1 cannot claim at t=120. *)
Lemma claim_blocked_until_period_roll_witness :
  update_id demo_staked 120 1 = None.
Proof.
  apply (claim_blocked_until_period_roll demo_registered demo_staked 60 120 1).
  - right. exists 1, (Some (1, Dec.of_int 350)), None. vm_compute. reflexivity.
  - vm_compute. reflexivity.
Defined.

(** Locking asset 1 of ID 1 at t=120 (7-day lock) blocks an unstake a minute later. *)
Lemma lock_stake_blocks_unstake_witness :
  start_unstake (fst (default (demo_staked, 0) (lock_stake demo_staked 120 1 1))) 180 1 1
    (Dec.of_int 100) false false = None.
Proof.
  refine (proj1 (lock_stake_blocks_unstake demo_staked _ 120 180 1 1
           (snd (default (demo_staked, 0) (lock_stake demo_staked 120 1 1)))
           (default (StakableUnit.mk 0 0 0 0 (Lock.mk 0 0) ∅)
              (stakes (fst (default (demo_staked, 0) (lock_stake demo_staked 120 1 1))) !! 1))
           _ _ _) _ _ _).
  - vm_compute. reflexivity.
  - vm_compute. reflexivity.
  - vm_compute. reflexivity.
Defined.

(** ID 1 of [demo_staked] has one staked amount and one lock time. *)
Lemma id_vectors_aligned_witness :
  length (Id.amounts_staked (Id.mk [Dec.of_int 350] [0] 1 [None])) =
    length (Id.locked_until (Id.mk [Dec.of_int 350] [0] 1 [None])).
Proof.
  refine (proj1 (id_vectors_aligned demo_staked demo_staked_reachable 1 _ _)).
  vm_compute. reflexivity.
Defined.

(** The unstaking delay of [demo_staked]. *)
Lemma unstake_delay_bounded_witness :
  unstake_delay demo_staked = 7 \/ unstake_delay demo_staked <= max_unstaking_delay demo_staked.
Proof. apply unstake_delay_bounded. exact demo_staked_reachable. Defined.

(** A component without DAO control refuses [set_lock] after registering an asset and creating an ID. *)
Lemma set_lock_never_without_dao_witness :
  set_lock (default demo_new (run (default demo_new (new 0 7 (Dec.of_int 1000) false 30 100 101 102))
                               (take 2 demo_calls))) 1 1000 1 = None.
Proof.
  apply (set_lock_never_without_dao 0 7 (Dec.of_int 1000) 30 100 101 102
           (default demo_new (new 0 7 (Dec.of_int 1000) false 30 100 101 102)) _ (take 2 demo_calls)).
  - vm_compute. reflexivity.
  - vm_compute. reflexivity.
Defined.

(** The roll of [demo_staked] at three weeks goes to period 1 with a boundary after that time. *)
Lemma update_period_next_boundary_witness :
  current_period demo_rolled = 1 /\
  3 * 7 * SECONDS_IN_A_DAY < next_period demo_rolled.
Proof.
  destruct (update_period_next_boundary demo_staked demo_rolled (3 * 7 * SECONDS_IN_A_DAY))
    as (H1 & [H2 _] & _).
  - vm_compute. reflexivity.
  - zcomp.
  - vm_compute. discriminate.
  - split; [rewrite H1; reflexivity|exact H2].
Defined.

(** The rate 2 frozen for period 0 in [demo_rolled] survives a new reward amount and a later roll. *)
Lemma frozen_rates_permanent_witness :
  exists su', stakes (default demo_rolled (run demo_rolled demo_rate_calls)) !! 1 = Some su' /\
    StakableUnit.rewards su' !! 0 = Some (Dec.of_int 2).
Proof.
  refine (frozen_rates_permanent demo_rolled _ demo_rate_calls _ _ 1
            (default (StakableUnit.mk 0 0 0 0 (Lock.mk 0 0) ∅) (stakes demo_rolled !! 1))
            0 (Dec.of_int 2) _ _).
  - apply (reachable_step demo_staked (3 * 7 * SECONDS_IN_A_DAY) UpdatePeriod);
      [exact demo_staked_reachable|vm_compute; reflexivity].
  - vm_compute. reflexivity.
  - vm_compute. reflexivity.
  - vm_compute. reflexivity.
Defined.

(** Registering asset 2 keeps asset 1 at index 0. *)
Lemma registry_indices_stable_witness :
  stakables (default demo_staked (run demo_staked [(120, AddStakable 2 (Dec.of_int 10) (Lock.mk 0 0))]))
    !! 0%nat = Some 1.
Proof.
  apply (registry_indices_stable demo_staked _ [(120, AddStakable 2 (Dec.of_int 10) (Lock.mk 0 0))]).
  - vm_compute. reflexivity.
  - vm_compute. reflexivity.
Defined.

(** The stake of 350 that leads from [demo_registered] to [demo_staked]. *)
Lemma stake_accounting_witness :
  exists d' su',
    get_id (id_manager demo_staked) 1 = Some d' /\ stakes demo_staked !! 1 = Some su' /\
    staked_at 0 d' = 0 + Dec.of_int 350 /\
    StakableUnit.staked_amount su' = 0 + Dec.of_int 350 /\
    StakableUnit.vault su' = 0 + Dec.of_int 350 /\
    reward_vault demo_staked = reward_vault demo_registered /\
    Id.next_period d' = current_period demo_staked + 1.
Proof.
  refine (stake_accounting demo_registered demo_staked 60 1 (Dec.of_int 350) 1 0
            (Id.mk [0] [0] 1 [None])
            (default (StakableUnit.mk 0 0 0 0 (Lock.mk 0 0) ∅) (stakes demo_registered !! 1))
            _ _ _ _).
  - vm_compute. reflexivity.
  - vm_compute. reflexivity.
  - vm_compute. reflexivity.
  - vm_compute. reflexivity.
Defined.

(** The unstake request of 100 that leads from [demo_staked] to [demo_unstaked]. *)
Lemma start_unstake_accounting_witness :
  exists d' su' r,
    get_id (id_manager demo_unstaked) 1 = Some d' /\ stakes demo_unstaked !! 1 = Some su' /\
    get_unstake (unstake_receipt_manager demo_unstaked) 1 = Some r /\
    1 = unstake_receipt_counter demo_staked + 1 /\
    UnstakeReceipt.address r = 1 /\
    staked_at 0 d' = Dec.of_int 350 - UnstakeReceipt.amount r /\
    StakableUnit.staked_amount su' = Dec.of_int 350 - UnstakeReceipt.amount r /\
    StakableUnit.vault su' = Dec.of_int 350 /\
    reward_vault demo_unstaked = reward_vault demo_staked /\
    UnstakeReceipt.redemption_time r = 120 + unstake_delay demo_staked * SECONDS_IN_A_DAY.
Proof.
  refine (start_unstake_accounting demo_staked demo_unstaked 120 1 1 (Dec.of_int 100) false 1 0
            (Id.mk [Dec.of_int 350] [0] 1 [None])
            (default (StakableUnit.mk 0 0 0 0 (Lock.mk 0 0) ∅) (stakes demo_staked !! 1))
            _ _ _ _).
  - vm_compute. reflexivity.
  - vm_compute. reflexivity.
  - vm_compute. reflexivity.
  - vm_compute. reflexivity.
Defined.

(** Receipt 1 of [demo_unstaked] cannot be redeemed one day after its request. *)
Lemma unstake_receipt_matures_witness :
  finish_unstake demo_unstaked (120 + SECONDS_IN_A_DAY) (102, 1) = None.
Proof.
  apply (unstake_receipt_matures demo_staked demo_unstaked demo_unstaked 120 1 1 (Dec.of_int 100)
           false 1 []).
  - vm_compute. reflexivity.
  - reflexivity.
  - vm_compute. reflexivity.
Defined.

(** ID 1 survives an unstake of everything and a period roll. *)
Lemma staking_ids_never_removed_witness :
  is_Some (get_id (id_manager (default demo_staked
     (run demo_staked [(120, StartUnstake 1 1 (Dec.of_int 350) true false);
                       (3 * 7 * SECONDS_IN_A_DAY, UpdatePeriod)]))) 1).
Proof.
  apply (staking_ids_never_removed demo_staked _
           [(120, StartUnstake 1 1 (Dec.of_int 350) true false);
            (3 * 7 * SECONDS_IN_A_DAY, UpdatePeriod)]).
  - vm_compute. reflexivity.
  - vm_compute. eexists. reflexivity.
Defined.
